(** * Verification of the Vercel LLM service of ace
    (src/core/ai/llm/services/vercel.ts).

    Shallow embedding of the streaming reconciler (the [onChunk], [onError],
    [onStepFinish] and [onFinish] callbacks given to the AI SDK's
    [streamText]), of [completeTask], [completeTaskStreaming] and
    [resetConversation]. A JavaScript string is the list of its UTF-16 code
    units; the event bus is an append-only list of emitted events; the
    MessageManager history is a list of messages.

    Around the service: [formatTools]; the [AceAgent] constructor and
    [run] (src/ai/agent/AceAgent.ts); the Discord bot's [messageCreate]
    handler and [downloadFileAsBase64], a caller of [AceAgent.run]; and the
    CLI subscriber's [accumulatedResponse] and [cleanDuplicateText], a
    consumer of the events. *)

From Stdlib Require Import String Ascii List Bool Arith Lia Permutation.
From Stdlib Require QArith NArith.
Import ListNotations.

(** ** Strings *)

Module JsString.

Import NArith.
Local Open Scope N_scope.

(** A JavaScript string: its UTF-16 code units. *)
Definition jstring := list N.

(** A string literal of the source; every character used is one code
    unit. *)
Definition js (s : string) : jstring := map N_of_ascii (list_ascii_of_string s).

(** The code units that [String.prototype.trim] removes: WhiteSpace (TAB,
    VT, FF, ZWNBSP U+FEFF and the space separators, category Zs: U+0020,
    U+00A0, U+1680, U+2000 to U+200A, U+202F, U+205F, U+3000) and
    LineTerminator (LF, CR, U+2028, U+2029). *)
Definition is_ws (c : N) : bool :=
  ((0x9 <=? c) && (c <=? 0xD)) || (c =? 0x20) || (c =? 0xA0) || (c =? 0x1680)
  || ((0x2000 <=? c) && (c <=? 0x200A)) || (c =? 0x2028) || (c =? 0x2029)
  || (c =? 0x202F) || (c =? 0x205F) || (c =? 0x3000) || (c =? 0xFEFF).

Fixpoint drop_ws (l : jstring) : jstring :=
  match l with
  | [] => []
  | c :: r => if is_ws c then drop_ws r else l
  end.

(** [s.trim()]: strip leading and trailing whitespace. *)
Definition trim (s : jstring) : jstring := rev (drop_ws (rev (drop_ws s))).

(** JavaScript truthiness of a string [s]. *)
Definition truthy (s : jstring) : bool :=
  match s with [] => false | _ :: _ => true end.

(** JavaScript truthiness of [s.trim()], i.e. [s.trim() !== '']. *)
Definition trim_nonempty (s : jstring) : bool := truthy (trim s).

(** [a === b] on strings. *)
Fixpoint jeqb (a b : jstring) : bool :=
  match a, b with
  | [], [] => true
  | x :: a', y :: b' => (x =? y) && jeqb a' b'
  | _, _ => false
  end.

(** [l.join(sep)] *)
Fixpoint join (sep : jstring) (l : list jstring) : jstring :=
  match l with
  | [] => []
  | [x] => x
  | x :: r => x ++ sep ++ join sep r
  end.

End JsString.

Import JsString NArith.

(** ** Data model *)

Record ToolCall := mkToolCall { toolName : jstring; args : jstring }.
Record ToolResultT := mkToolResult { resToolName : jstring; result : jstring }.

(** The step object passed to [onStepFinish] (fields that the code reads). *)
Record StepResult := mkStep {
  text : jstring;
  toolCalls : list ToolCall;
  toolResults : list ToolResultT
}.

(** [xs && xs.length > 0] *)
Definition has_elems {A} (l : list A) : bool :=
  match l with [] => false | _ => true end.

(** Events published on the agent event bus ('llmservice:...' names). *)
Inductive Event :=
| EvThinking                                     (* llmservice:thinking *)
| EvChunk (delta : jstring)                      (* llmservice:chunk *)
| EvToolCall (name : jstring) (arguments : jstring) (* llmservice:toolCall *)
| EvToolResult (name : jstring) (res : jstring)  (* llmservice:toolResult *)
| EvResponse (t : jstring)                       (* llmservice:response *)
| EvError (msg : jstring)                        (* llmservice:error *)
| EvConversationReset                            (* llmservice:conversationReset *)
| EvResetAccumulation.                           (* llmservice:resetAccumulation *)

(** Messages of the MessageManager history. *)
Inductive Message :=
| UserMessage (t : jstring)
| AssistantMessage (t : jstring)
| ToolMessage (name : jstring) (res : jstring).

(** ** The streaming reconciler of [streamText] *)

Module Reconciler.

(** The state shared by the four callbacks: the closure variable
    [currentSegmentText], the MessageManager history and the event bus. *)
Record StreamState := mkStreamState {
  currentSegmentText : jstring;
  history : list Message;
  emitted : list Event
}.

Definition emit (e : Event) (st : StreamState) : StreamState :=
  mkStreamState (currentSegmentText st) (history st) (emitted st ++ [e]).

Definition emit_all (es : list Event) (st : StreamState) : StreamState :=
  mkStreamState (currentSegmentText st) (history st) (emitted st ++ es).

(** [this.messageManager.addAssistantMessage(t)] *)
Definition addAssistantMessage (t : jstring) (st : StreamState) : StreamState :=
  mkStreamState (currentSegmentText st) (history st ++ [AssistantMessage t])
    (emitted st).

Definition setSegment (t : jstring) (st : StreamState) : StreamState :=
  mkStreamState t (history st) (emitted st).

(** A chunk delivered to [onChunk]: a text delta or another chunk type. *)
Inductive ChunkPart :=
| TextDelta (textDelta : jstring)
| OtherChunk (type_ : jstring).

(** [onChunk] *)
Definition onChunk (c : ChunkPart) (st : StreamState) : StreamState :=
  match c with
  | TextDelta delta =>
      if truthy delta
      then emit (EvChunk delta)
             (setSegment (currentSegmentText st ++ delta) st)
      else st
  | OtherChunk _ => st
  end.

(** [onError] *)
Definition onError (err : jstring) (st : StreamState) : StreamState :=
  emit (EvError err) st.

Definition toolCallEvents (l : list ToolCall) : list Event :=
  map (fun tc => EvToolCall (toolName tc) (args tc)) l.

Definition toolResultEvents (l : list ToolResultT) : list Event :=
  map (fun tr => EvToolResult (resToolName tr) (result tr)) l.

(** [onStepFinish]; the pair threads [hasHandledThisStep]. *)
Definition onStepFinish (step : StepResult) (st0 : StreamState) : StreamState :=
  (* Handle completed text segments first *)
  let '(st1, handled1) :=
    if truthy (text step) && trim_nonempty (text step)
    then (setSegment []
            (emit (EvResponse (text step))
               (addAssistantMessage (text step) st0)), true)
    else (st0, false) in
  (* Handle tool calls if present *)
  let '(st2, handled2) :=
    if has_elems (toolCalls step)
    then
      let st1a :=
        if trim_nonempty (currentSegmentText st1) && negb handled1
        then emit (EvResponse (currentSegmentText st1))
               (addAssistantMessage (currentSegmentText st1) st1)
        else st1 in
      let st1b := setSegment [] st1a in
      let st1c := emit_all (toolCallEvents (toolCalls step)) st1b in
      (emit EvResetAccumulation st1c, true)
    else (st1, handled1) in
  (* Handle tool results if present *)
  let '(st3, handled3) :=
    if has_elems (toolResults step)
    then (setSegment []
            (emit_all (toolResultEvents (toolResults step)) st2), true)
    else (st2, handled2) in
  (* Fallback *)
  if trim_nonempty (currentSegmentText st3) && negb handled3
  then setSegment []
         (emit (EvResponse (currentSegmentText st3))
            (addAssistantMessage (currentSegmentText st3) st3))
  else st3.

(** [onFinish] *)
Definition onFinish (st : StreamState) : StreamState :=
  let st1 :=
    if trim_nonempty (currentSegmentText st)
    then emit (EvResponse (currentSegmentText st))
           (addAssistantMessage (currentSegmentText st) st)
    else st in
  setSegment [] st1.

(** The raw provider signals: the four callbacks of [streamText]. *)
Inductive Signal :=
| SChunk (c : ChunkPart)
| SError (err : jstring)
| SStepFinish (step : StepResult)
| SFinish.

Definition handle (sg : Signal) (st : StreamState) : StreamState :=
  match sg with
  | SChunk c => onChunk c st
  | SError e => onError e st
  | SStepFinish s => onStepFinish s st
  | SFinish => onFinish st
  end.

Definition run_signals (sgs : list Signal) (st : StreamState) : StreamState :=
  fold_left (fun acc sg => handle sg acc) sgs st.

(** The state at the start of [streamText]: [currentSegmentText = ''],
    the history [h] and the events [evs] emitted so far. *)
Definition start (h : list Message) (evs : list Event) : StreamState :=
  mkStreamState [] h evs.

(** Payloads of the [response] events of a list of events. *)
Fixpoint responses (l : list Event) : list jstring :=
  match l with
  | [] => []
  | EvResponse t :: r => t :: responses r
  | _ :: r => responses r
  end.

Fixpoint count_reset (l : list Event) : nat :=
  match l with
  | [] => 0
  | EvResetAccumulation :: r => S (count_reset r)
  | _ :: r => count_reset r
  end.

Definition deltas (ds : list jstring) : list Signal :=
  map (fun d => SChunk (TextDelta d)) ds.

Definition toolCallPart (l : list ToolCall) : list Event :=
  if has_elems l then toolCallEvents l ++ [EvResetAccumulation] else [].

Fixpoint nonempty_deltas (ds : list jstring) : list jstring :=
  match ds with
  | [] => []
  | d :: r => if truthy d then d :: nonempty_deltas r else nonempty_deltas r
  end.

(** Steps that carry a tool-call batch. *)
Definition is_tool_call_step (sg : Signal) : bool :=
  match sg with
  | SStepFinish s => has_elems (toolCalls s)
  | _ => false
  end.

End Reconciler.

Import Reconciler.

(** ** The service: [completeTask], [completeTaskStreaming],
    [resetConversation] *)

Module Service.

(** Outcome of an async call: a value, or a thrown error (its message). *)
Inductive Result (A : Type) : Type :=
| Ok (a : A)
| Throw (err : jstring).
Arguments Ok {A} a.
Arguments Throw {A} err.

(** The MessageManager history and the agent event bus. *)
Record Svc := mkSvc { messages : list Message; bus : list Event }.

Definition emitS (e : Event) (s : Svc) : Svc :=
  mkSvc (messages s) (bus s ++ [e]).

(** Modelled from the spec: [MessageManager.addUserMessage] (not in the
    sources) appends a user message. *)
Definition addUserMessage (t : jstring) (s : Svc) : Svc :=
  mkSvc (messages s ++ [UserMessage t]) (bus s).

(** Modelled from the spec: [MessageManager.reset] (not in the sources)
    clears all messages. *)
Definition mm_reset (s : Svc) : Svc := mkSvc [] (bus s).

(** Modelled from the spec: [MessageManager.processLLMResponse] (not in the
    sources) records each step's text as an assistant message and each tool
    result as a tool message. *)
Definition stepMessages (step : StepResult) : list Message :=
  (if truthy (text step) then [AssistantMessage (text step)] else [])
  ++ map (fun tr => ToolMessage (resToolName tr) (result tr))
         (toolResults step).

Definition processLLMResponse (steps : list StepResult) (s : Svc) : Svc :=
  mkSvc (messages s ++ flat_map stepMessages steps) (bus s).

(** [resetConversation] *)
Definition resetConversation (s : Svc) : Svc :=
  emitS EvConversationReset (mm_reset s).

Definition exhaustionMessage : jstring :=
  js "Reached maximum number of tool call iterations without a final response.".

Definition errorPrefix : jstring := js "Error processing request: ".

(** The events emitted by the [onStepFinish] callback of [generateText]. *)
Definition generateStepEvents (step : StepResult) : list Event :=
  (if truthy (text step) then [EvResponse (text step)] else [])
  ++ (if has_elems (toolCalls step) then toolCallEvents (toolCalls step) else [])
  ++ (if has_elems (toolResults step)
      then toolResultEvents (toolResults step) else []).

(** [response.text] of the AI SDK: the text of the last step. *)
Definition lastText (steps : list StepResult) : jstring :=
  match rev steps with
  | [] => []
  | s :: _ => text s
  end.

Section NonStreaming.

(** [this.clientManager.getAllTools()]: the tool names, or a rejection. *)
Variable getAllTools : Result (list jstring).
(** The AI SDK's [generateText] on a history and [maxSteps]: the steps it
    completed (each passed to [onStepFinish] in order) and the error it
    threw, if any. *)
Variable sdk_generateText : list Message -> nat -> list StepResult * option jstring.
Variable maxIterations : nat.

(** [this.generateText(messages, tools, maxSteps)] *)
Definition generateText (msgs : list Message) (maxSteps : nat) (s : Svc)
    : Result jstring * Svc :=
  let '(steps, err) := sdk_generateText msgs maxSteps in
  let s1 := mkSvc (messages s) (bus s ++ flat_map generateStepEvents steps) in
  match err with
  | Some e => (Throw e, s1)
  | None => (Ok (lastText steps), processLLMResponse steps s1)
  end.

(** The [while (iterationCount < 1)] loop; [fuel] bounds the passes. *)
Fixpoint completeTask_loop (fuel iterationCount : nat) (fullResponse : jstring)
    (s : Svc) : Result jstring * Svc :=
  match fuel with
  | O => (Ok fullResponse, s)
  | S f =>
      if iterationCount <? 1 then
        let s1 := emitS EvThinking s in
        (* getFormattedMessages: the current history *)
        match generateText (messages s1) maxIterations s1 with
        | (Ok t, s2) => completeTask_loop f (S iterationCount) t s2
        | (Throw e, s2) => (Throw e, s2)
        end
      else (Ok fullResponse, s)
  end.

(** [completeTask(userInput)] *)
Definition completeTask (userInput : jstring) (s0 : Svc) : Result jstring * Svc :=
  let s1 := addUserMessage userInput s0 in
  match getAllTools with
  | Throw e => (Throw e, s1)
  | Ok _ =>
      (* try { ... } *)
      match completeTask_loop 1 0 [] s1 with
      | (Ok fullResponse, s2) =>
          (Ok (if truthy fullResponse then fullResponse
               else exhaustionMessage), s2)
      | (Throw e, s2) =>
          (* catch (error) { ... } *)
          (Ok (errorPrefix ++ e), emitS (EvError e) s2)
      end
  end.

End NonStreaming.

Section Streaming.

Variable getAllTools : Result (list jstring).

(** How [processStream]'s [for await] over [streamResult.textStream] ends. *)
Inductive Consumption :=
| Consumed
| ConsumeThrows (err : jstring)
| NotIterable.

(** The AI SDK's [streamText] on a history and [maxSteps]: either it throws,
    or it delivers a sequence of callback signals and its text stream is
    consumed with the given outcome. *)
Variable sdk_streamText : list Message -> nat -> Result (list Signal * Consumption).
Variable maxIterations : nat.

Definition notIterableMessage : jstring :=
  js "Vercel AI SDK stream is not iterable as expected.".

(** [processStream] *)
Definition processStream (msgs : list Message) (maxSteps : nat) (s : Svc)
    : Result unit * Svc :=
  match sdk_streamText msgs maxSteps with
  | Throw e => (Throw e, s)
  | Ok (sigs, outcome) =>
      let st := run_signals sigs (start (messages s) (bus s)) in
      let s1 := mkSvc (history st) (emitted st) in
      match outcome with
      | Consumed => (Ok tt, s1)
      | ConsumeThrows e => (Ok tt, emitS (EvError e) s1)
      | NotIterable => (Ok tt, emitS (EvError notIterableMessage) s1)
      end
  end.

(** [completeTaskStreaming(userInput)] *)
Definition completeTaskStreaming (userInput : jstring) (s0 : Svc)
    : Result unit * Svc :=
  let s1 := addUserMessage userInput s0 in
  match getAllTools with
  | Throw e => (Throw e, s1)
  | Ok _ =>
      let s2 := emitS EvThinking s1 in
      match processStream (messages s2) maxIterations s2 with
      | (Ok _, s3) => (Ok tt, s3)
      | (Throw e, s3) => (Ok tt, emitS (EvError e) s3)
      end
  end.

End Streaming.

End Service.

(** ** The AI SDK's multi-step [generateText]

    Library code (package [ai], version 4), outside this repository. With
    [maxSteps < 1] it throws. Otherwise each step calls the model once; the
    SDK then parses the tool calls of the answer in order (it throws for a
    name that has no tool or for arguments that do not parse) and runs the
    [execute] of each call concurrently ([Promise.all]: it throws if one of
    them rejects); the step is then passed to [onStepFinish]. A further step
    follows while the step made tool calls, each with a result, and fewer
    than [maxSteps] steps were made. [response.text] is the text of the last
    step. [maxSteps] is a non-negative integer here. *)

Module AiSdk.

Import Service.

(** The answer of one model call: its text and its tool calls. *)
Record ModelAnswer := mkModelAnswer {
  answerText : jstring;
  answerToolCalls : list ToolCall
}.

(** The errors that [generateText] throws. *)
Inductive SdkFailure :=
| InvalidMaxSteps                          (* InvalidArgumentError *)
| ModelCallFailed (msg : jstring)          (* the model call, after its retries *)
| NoSuchTool (call : ToolCall)             (* NoSuchToolError *)
| InvalidToolArguments (call : ToolCall)   (* InvalidToolArgumentsError *)
| ToolExecutionFailed (rejected : list (ToolCall * jstring)).
    (* the executions that rejected; [Promise.all] settles with the first
       rejection in time *)

(** What the SDK does with one tool call of an answer. *)
Inductive CallHandling :=
| CallThrows (f : SdkFailure)           (* parsing the call throws *)
| CallExecutes (r : Result jstring)     (* [execute] resolves or rejects *)
| CallNoExecute.                        (* no [execute]: no result *)

Section Model.

(** The keys of the tool set given to the SDK, [formatTools(tools)]; each of
    them has an [execute] that calls [clientManager.executeTool(name, args)]. *)
Variable toolKeys : list jstring.
(** The model: its answer to the prompt made of the initial messages and
    the steps already made, or the error of the call. *)
Variable model : list Message -> list StepResult -> Result ModelAnswer.
(** Whether a tool call's arguments parse (an empty text counts as [{}]). *)
Variable argsParse : jstring -> bool.
(** [clientManager.executeTool(name, args)]: a result, or a rejection. *)
Variable executeTool : jstring -> jstring -> Result jstring.
(** A call whose name is not a key of the tool set: [tools[name]] is
    [undefined] (NoSuchToolError) or, for a name such as "toString", a
    value inherited through the object's prototype. *)
Variable unknownCall : ToolCall -> CallHandling.
(** The message of the error thrown for a failure (its wording depends on
    the SDK's minor version). *)
Variable failureMessage : SdkFailure -> jstring.

Definition handleCall (c : ToolCall) : CallHandling :=
  if existsb (jeqb (toolName c)) toolKeys then
    if argsParse (args c) then CallExecutes (executeTool (toolName c) (args c))
    else CallThrows (InvalidToolArguments c)
  else unknownCall c.

(** Parsing the calls in order: the first failure. *)
Fixpoint parseFailure (calls : list ToolCall) : option SdkFailure :=
  match calls with
  | [] => None
  | c :: r =>
      match handleCall c with
      | CallThrows f => Some f
      | _ => parseFailure r
      end
  end.

(** Running the calls: the results of those that resolve, in call order,
    and the calls that reject with their errors. *)
Fixpoint executeCalls (calls : list ToolCall)
    : list ToolResultT * list (ToolCall * jstring) :=
  match calls with
  | [] => ([], [])
  | c :: r =>
      let '(oks, errs) := executeCalls r in
      match handleCall c with
      | CallExecutes (Ok x) => (mkToolResult (toolName c) x :: oks, errs)
      | CallExecutes (Throw e) => (oks, (c, e) :: errs)
      | _ => (oks, errs)
      end
  end.

(** One step: a model call, then its tool calls. *)
Definition runStep (msgs : list Message) (prev : list StepResult)
    : StepResult + SdkFailure :=
  match model msgs prev with
  | Throw e => inr (ModelCallFailed e)
  | Ok a =>
      match parseFailure (answerToolCalls a) with
      | Some f => inr f
      | None =>
          let '(results, rejected) := executeCalls (answerToolCalls a) in
          match rejected with
          | [] => inl (mkStep (answerText a) (answerToolCalls a) results)
          | _ :: _ => inr (ToolExecutionFailed rejected)
          end
      end
  end.

(** The step loop: [prev] are the steps made, [fuel] the number of further
    steps allowed. *)
Fixpoint steps_loop (fuel : nat) (msgs : list Message) (prev : list StepResult)
    : list StepResult * option SdkFailure :=
  match runStep msgs prev with
  | inr f => (prev, Some f)
  | inl step =>
      match fuel with
      | S f' =>
          if has_elems (toolCalls step)
             && (length (toolResults step) =? length (toolCalls step))
          then steps_loop f' msgs (prev ++ [step])
          else (prev ++ [step], None)
      | O => (prev ++ [step], None)
      end
  end.

Definition generateText_model (msgs : list Message) (maxSteps : nat)
    : list StepResult * option jstring :=
  if maxSteps <? 1 then ([], Some (failureMessage InvalidMaxSteps))
  else
    let '(steps, f) := steps_loop (maxSteps - 1) msgs [] in
    (steps, option_map failureMessage f).

End Model.

End AiSdk.

Import Service AiSdk.

(** ** More of vercel.ts: event counters and [formatTools] *)

Module VercelExtra.

Import Service NArith.

(** Payloads of the chunk events of a list of events. *)
Fixpoint chunks_of (l : list Event) : list jstring :=
  match l with
  | [] => []
  | EvChunk d :: r => d :: chunks_of r
  | _ :: r => chunks_of r
  end.

Fixpoint count_errors (l : list Event) : nat :=
  match l with
  | [] => 0
  | EvError _ :: r => S (count_errors r)
  | _ :: r => count_errors r
  end.

(** The non-empty text deltas a signal carries. *)
Definition signal_delta (sg : Signal) : list jstring :=
  match sg with
  | SChunk (TextDelta d) => if truthy d then [d] else []
  | _ => []
  end.

Definition is_error_signal (sg : Signal) : bool :=
  match sg with SError _ => true | _ => false end.

(** An MCP tool as returned by [clientManager.getAllTools()]. *)
Record McpTool := mkMcpTool { mcpDescription : jstring; mcpParameters : jstring }.

(** [jsonSchema(parameters)] *)
Inductive Schema := jsonSchema (raw : jstring).

(** A tool of the Vercel tool set; [vExecute args] is the call
    [clientManager.executeTool(name, args)] it makes. *)
Record VercelTool := mkVercelTool {
  vDescription : jstring;
  vParameters : Schema;
  vExecute : jstring -> jstring * jstring
}.

(** A JavaScript object is modelled by its own properties, in the order
    they were created; a [Map] by its entries in insertion order. *)

(** [o[k]] for an own property [k]; [m.get(k)]. *)
Fixpoint obj_get {V} (k : jstring) (o : list (jstring * V)) : option V :=
  match o with
  | [] => None
  | (k', v) :: r => if jeqb k k' then Some v else obj_get k r
  end.

(** Defining an own data property [k], or overwriting it in place;
    [m.set(k, v)]. *)
Fixpoint obj_set {V} (k : jstring) (v : V) (o : list (jstring * V))
    : list (jstring * V) :=
  match o with
  | [] => [(k, v)]
  | (k', v') :: r =>
      if jeqb k k' then (k, v) :: r else (k', v') :: obj_set k v r
  end.

Definition protoKey : jstring := js "__proto__".

(** [o[k] = v] on the accumulator of [formatTools], created as [{}]: for
    [k = "__proto__"] the assignment runs the setter inherited from
    [Object.prototype], which replaces the object's prototype and creates
    no own property; any other key creates or overwrites an own property
    (the prototypes involved have no other setter and no read-only
    property). *)
Definition obj_assign {V} (k : jstring) (v : V) (o : list (jstring * V))
    : list (jstring * V) :=
  if jeqb k protoKey then o else obj_set k v o.

(** The decimal digit a code unit stands for. *)
Definition digit (c : N) : option N :=
  if (48 <=? c)%N && (c <=? 57)%N then Some (c - 48)%N else None.

Fixpoint digits_value (acc : N) (l : jstring) : option N :=
  match l with
  | [] => Some acc
  | c :: r =>
      match digit c with
      | Some d => digits_value (acc * 10 + d)%N r
      | None => None
      end
  end.

(** The value of a key that is an array index: the canonical decimal form
    of an integer from 0 to 2^32 - 2. *)
Definition array_index (k : jstring) : option N :=
  match k with
  | [] => None
  | c :: r =>
      if (c =? 48)%N && has_elems r then None
      else match digits_value 0 k with
           | Some n => if (n <? 4294967295)%N then Some n else None
           | None => None
           end
  end.

Definition not_index (k : jstring) : bool :=
  match array_index k with Some _ => false | None => true end.

Fixpoint insertIndexed (p : N * jstring) (l : list (N * jstring))
    : list (N * jstring) :=
  match l with
  | [] => [p]
  | q :: r => if (fst p <? fst q)%N then p :: l else q :: insertIndexed p r
  end.

Fixpoint indexedKeys (ks : list jstring) : list (N * jstring) :=
  match ks with
  | [] => []
  | k :: r =>
      match array_index k with
      | Some n => insertIndexed (n, k) (indexedKeys r)
      | None => indexedKeys r
      end
  end.

(** [Object.keys(o)]: the array indices in ascending numeric order, then
    the other keys in creation order. *)
Definition objectKeys {V} (o : list (jstring * V)) : list jstring :=
  map snd (indexedKeys (map fst o)) ++ filter not_index (map fst o).

Definition formatTool (toolName : jstring) (t : McpTool) : VercelTool :=
  mkVercelTool (mcpDescription t) (jsonSchema (mcpParameters t))
    (fun a => (toolName, a)).

(** [formatTools]: [Object.keys(tools).reduce((acc, toolName) => {
    acc[toolName] = ...tools[toolName]...; return acc }, {})]; a key of
    [Object.keys(tools)] is an own property of [tools]. *)
Definition formatTools (tools : list (jstring * McpTool))
    : list (jstring * VercelTool) :=
  fold_left
    (fun acc toolName =>
       match obj_get toolName tools with
       | Some t => obj_assign toolName (formatTool toolName t) acc
       | None => acc
       end)
    (objectKeys tools) [].

End VercelExtra.

(** ** [AceAgent] (src/ai/agent/AceAgent.ts) *)

Module Agent.

Import Service.

Inductive ServiceName :=
| clientManager | promptManager | llmService
| agentEventBus | messageManager | configManager.

Definition serviceKey (s : ServiceName) : jstring :=
  match s with
  | clientManager => js "clientManager"
  | promptManager => js "promptManager"
  | llmService => js "llmService"
  | agentEventBus => js "agentEventBus"
  | messageManager => js "messageManager"
  | configManager => js "configManager"
  end.

Definition requiredServices : list ServiceName :=
  [clientManager; promptManager; llmService; agentEventBus; messageManager;
   configManager].

Definition missingServiceMessage (s : ServiceName) : jstring :=
  js "Required service " ++ serviceKey s ++ js " is missing in AceAgent constructor".

(** The validation loop of the constructor; [present s] is the truthiness
    of [services[s]]. *)
Fixpoint validateServices (present : ServiceName -> bool)
    (l : list ServiceName) : Result unit :=
  match l with
  | [] => Ok tt
  | s :: r =>
      if present s then validateServices present r
      else Throw (missingServiceMessage s)
  end.

Definition constructAceAgent (present : ServiceName -> bool) : Result unit :=
  validateServices present requiredServices.

(** [run(userInput, imageData, streamingEnabled)]: [None] is [undefined];
    a thrown error is rethrown. *)
Definition run (getAllTools : Result (list jstring))
    (sdk : list Message -> nat -> list StepResult * option jstring)
    (sdkS : list Message -> nat -> Result (list Signal * Consumption))
    (maxIterations : nat) (userInput : jstring) (streamingEnabled : bool)
    (s : Svc) : Result (option jstring) * Svc :=
  if streamingEnabled then
    match completeTaskStreaming getAllTools sdkS maxIterations userInput s with
    | (Ok _, s') => (Ok None, s')
    | (Throw e, s') => (Throw e, s')
    end
  else
    match completeTask getAllTools sdk maxIterations userInput s with
    | (Ok r, s') => (Ok (Some r), s')
    | (Throw e, s') => (Throw e, s')
    end.

End Agent.

(** ** The Discord bot (its [messageCreate] handler and
    [downloadFileAsBase64]), a caller of [AceAgent.run]

    Times in milliseconds and [COOLDOWN_SECONDS] are finite JavaScript
    numbers, each a rational number; the one sum the handler stores is
    computed in floating point and left as a parameter. Calls to the
    Discord API are recorded as actions, in the order the handler makes
    them; the handler stops making calls when it returns, throws, or waits
    for a promise that never settles. *)

Module DiscordBot.

Import VercelExtra QArith NArith.
Local Open Scope nat_scope.

(** [s.startsWith(p)] *)
Fixpoint prefix (p s : jstring) : bool :=
  match p, s with
  | [], _ => true
  | x :: p', y :: s' => N.eqb x y && prefix p' s'
  | _ :: _, [] => false
  end.

(** [s.indexOf(pat)] from position [i]: the first position where [pat]
    starts. *)
Fixpoint indexOf_from (pat s : jstring) (i : nat) : option nat :=
  if prefix pat s then Some i
  else match s with
       | [] => None
       | _ :: s' => indexOf_from pat s' (S i)
       end.

Definition indexOf (s pat : jstring) : option nat := indexOf_from pat s 0.

(** [s.slice(n)] for [n >= 0] *)
Definition slice_from (n : nat) (s : jstring) : jstring := skipn n s.

(** [s.slice(0, n)] for [n >= 0] *)
Definition slice_to (n : nat) (s : jstring) : jstring := firstn n s.

Definition askMarker : jstring := js "!ask ".

(** Steps 2 to 4 of the handler: [None] when the handler returns early
    (a guild message without "!ask ", or an empty prompt), otherwise the
    prompt [userText]. [isDM] is [!message.guild]. *)
Definition extractUserText (isDM : bool) (content : jstring) : option jstring :=
  let askIndex := indexOf content askMarker in
  if negb isDM && match askIndex with None => true | Some _ => false end
  then None
  else
    let userText :=
      if isDM then trim content
      else match askIndex with
           | Some i => trim (slice_from (i + 5) content)
           | None => []
           end in
    if truthy userText then Some userText else None.

(** *** [downloadFileAsBase64] *)

Definition MAX_BYTES : N := (5 * 1024 * 1024)%N.

(** How the response stream ends after its data chunks. *)
Inductive ResponseEnd :=
| EndEvent (reqDestroyed : bool)
    (* 'end' is emitted; [reqDestroyed] is [req.destroyed] when the
       listener runs, true when the HTTP agent has already freed the socket
       of a kept-alive response (the default agent of Node 19 and later) *)
| ResponseError (msg : jstring)   (* 'error' on the response *)
| RequestError (msg : jstring).   (* 'error' on the request: a socket error,
                                     or 'File download timed out' *)

(** The errors [downloadFileAsBase64] rejects with. *)
Inductive DownloadError :=
| StatusError (code : nat) (msg : jstring)
    (* Failed to download file: ${res.statusCode} ${res.statusMessage} *)
| SizeLimitExceeded                (* Attachment exceeds 5 MB limit *)
| TransportError (msg : jstring).  (* an 'error' event *)

Inductive DownloadResult :=
| Downloaded (base64 : jstring) (mimeType : jstring)
| DownloadFailed (err : DownloadError)
| DownloadPending.                 (* the promise never settles *)

Section Download.

Variable Byte : Type.
(** [buffer.toString('base64')] *)
Variable toBase64 : list Byte -> jstring.

(** The response passed to the callback of [protocol.get(fileUrl)]: the
    status code (0 when absent), the status message, the content-type
    header ('' when absent), the data chunks, and how the stream ends. *)
Record HttpResponse := mkHttpResponse {
  statusCode : nat;
  statusMessage : jstring;
  contentTypeHeader : jstring;
  dataChunks : list (list Byte);
  responseEnd : ResponseEnd
}.

(** What [protocol.get(fileUrl, ...)] leads to. *)
Inductive HttpOutcome :=
| NoResponse (msg : jstring)
    (* 'error' on the request before any response (DNS, connection,
       timeout) *)
| Responded (res : HttpResponse).

(** The 'data' handler over the chunks: [None] when the request is
    destroyed for exceeding [MAX_BYTES], otherwise the kept chunks. *)
Fixpoint receive (downloadedBytes : N) (chunks : list (list Byte))
    (data : list (list Byte)) : option (list (list Byte)) :=
  match data with
  | [] => Some chunks
  | chunk :: r =>
      let d := (downloadedBytes + N.of_nat (length chunk))%N in
      if (MAX_BYTES <? d)%N then None else receive d (chunks ++ [chunk]) r
  end.

Definition downloadFileAsBase64 (out : HttpOutcome) : DownloadResult :=
  match out with
  | NoResponse e => DownloadFailed (TransportError e)
  | Responded res =>
      if (0 <? statusCode res) && (400 <=? statusCode res)
      then DownloadFailed (StatusError (statusCode res) (statusMessage res))
      else
        match receive 0%N [] (dataChunks res) with
        | None => DownloadFailed SizeLimitExceeded
        | Some chunks =>
            match responseEnd res with
            | EndEvent true => DownloadPending
            | EndEvent false =>
                Downloaded (toBase64 (concat chunks))
                  (if truthy (contentTypeHeader res) then contentTypeHeader res
                   else js "application/octet-stream")
            | ResponseError e => DownloadFailed (TransportError e)
            | RequestError e => DownloadFailed (TransportError e)
            end
        end
  end.

End Download.

(** *** Replies *)

(** Discord API calls of the handler. *)
Inductive BotAction :=
| BotReply (t : jstring)                   (* message.reply(t) *)
| BotSend (t : jstring)                    (* message.channel.send(t) *)
| BotTyping                                (* message.channel.sendTyping() *)
| BotToolCallNotice (name args : jstring)  (* the toolCall handler's send *)
| BotCooldownNotice (cooldownEnd now : Q)
    (* Please wait ${((cooldownEnd - now) / 1000).toFixed(1)} more
       seconds ... *)
| BotDownloadError (err : DownloadError)
    (* Error downloading attachment: ${err.message} *).

Definition MAX : nat := 1900.

(** The [while (rest.length)] loop; [fuel] bounds the passes. *)
Fixpoint sendChunks (fuel : nat) (first : bool) (rest : jstring)
    : list BotAction :=
  match fuel with
  | O => []
  | S f =>
      if 0 <? length rest then
        let chunk := slice_to MAX rest in
        let rest' := slice_from MAX rest in
        (if first then BotReply chunk else BotSend chunk)
          :: sendChunks f false rest'
      else []
  end.

(** Discord's 2000-character limit: one reply, or chunks of [MAX]. *)
Definition replyWithResponse (responseText : jstring) : list BotAction :=
  if length responseText <=? MAX then [BotReply responseText]
  else sendChunks (length responseText) true responseText.

(** *** The [messageCreate] handler *)

Record DiscordMessage := mkDiscordMessage {
  authorId : jstring;
  inGuild : bool;                      (* !!message.guild *)
  msgContent : jstring;                (* message.content || '' *)
  attachmentUrl : option jstring
    (* message.attachments.first()?.url, when there are attachments *)
}.

Definition Qltb (a b : Q) : bool := negb (Qle_bool b a).

Definition errorReplyPrefix : jstring := js "Error: ".

Section Handler.

Variable RATE_LIMIT_ENABLED : bool.
Variable COOLDOWN_SECONDS : Q.
(** [Date.now() + COOLDOWN_SECONDS * 1000] for a value of [Date.now()]. *)
Variable cooldownEndAt : Q -> Q.
Variable Byte : Type.
Variable toBase64 : list Byte -> jstring.
(** What requesting a URL leads to. *)
Variable fetch : jstring -> HttpOutcome Byte.
(** [agent.run(userText, imageDataInput)]: the tool calls announced on the
    event bus while it runs, and its outcome. *)
Variable agentRun : jstring -> option (jstring * jstring)
                    -> list (jstring * jstring) * Service.Result jstring.
(** The Discord API: the error a call rejects with, if it does, given the
    calls the handler made before it. *)
Variable api : list BotAction -> BotAction -> option jstring.

Definition rateLimitActive : bool :=
  RATE_LIMIT_ENABLED && Qltb 0%Q COOLDOWN_SECONDS.

(** Awaiting the calls [acts] one after the other, after the calls [made]:
    the calls made, and the error of the first one that rejects. *)
Fixpoint awaitCalls (made acts : list BotAction)
    : list BotAction * option jstring :=
  match acts with
  | [] => ([], None)
  | a :: r =>
      match api made a with
      | Some e => ([a], Some e)
      | None =>
          let '(xs, err) := awaitCalls (made ++ [a]) r in (a :: xs, err)
      end
  end.

(** The [try] block of step 8: the calls made, and the error thrown. The
    tool-call notices are sent without being awaited, their errors caught. *)
Definition tryBlock (userText : jstring)
    (imageDataInput : option (jstring * jstring))
    : list BotAction * option jstring :=
  match api [] BotTyping with
  | Some e => ([BotTyping], Some e)
  | None =>
      let '(calls, res) := agentRun userText imageDataInput in
      let notices := map (fun c => BotToolCallNotice (fst c) (snd c)) calls in
      match res with
      | Service.Throw e => (BotTyping :: notices, Some e)
      | Service.Ok responseText =>
          let '(xs, err) :=
            awaitCalls (BotTyping :: notices) (replyWithResponse responseText) in
          (BotTyping :: notices ++ xs, err)
      end
  end.

(** The handler on [message], with [now] the time of the rate-limit check
    and [finallyNow] the time of the [finally] block; the map
    [userCooldowns] is threaded. *)
Definition onMessageCreate (message : DiscordMessage) (now finallyNow : Q)
    (userCooldowns : list (jstring * Q))
    : list BotAction * list (jstring * Q) :=
  match extractUserText (negb (inGuild message)) (msgContent message) with
  | None => ([], userCooldowns)
  | Some userText =>
      let cooldownEnd :=
        match obj_get (authorId message) userCooldowns with
        | Some t => t
        | None => 0%Q
        end in
      if rateLimitActive && Qltb now cooldownEnd then
        (* the reply's rejection is caught *)
        ([BotCooldownNotice cooldownEnd now], userCooldowns)
      else
        let image :=
          match attachmentUrl message with
          | Some url =>
              if truthy url then
                match downloadFileAsBase64 Byte toBase64 (fetch url) with
                | Downloaded b mt => inl (Some (b, mt))
                | DownloadFailed e => inr (Some e)
                | DownloadPending => inr None
                end
              else inl None
          | None => inl None
          end in
        match image with
        | inr (Some e) =>
            (* awaited outside the try block: its rejection rejects the
               handler *)
            ([BotDownloadError e], userCooldowns)
        | inr None => ([], userCooldowns)
        | inl imageDataInput =>
            let '(acts, err) := tryBlock userText imageDataInput in
            (acts ++ match err with
                     | Some e => [BotReply (errorReplyPrefix ++ e)]
                     | None => []
                     end,
             (* finally *)
             if rateLimitActive
             then obj_set (authorId message) (cooldownEndAt finallyNow)
                    userCooldowns
             else userCooldowns)
        end
  end.

End Handler.

(** Whether the handler entered its [try] block, whose first call is
    [message.channel.sendTyping()]. *)
Definition enteredTry (acts : list BotAction) : bool :=
  match acts with BotTyping :: _ => true | _ => false end.

End DiscordBot.

(** ** The CLI subscriber (src/app/cli/cli-subscriber.ts): its
    [accumulatedResponse] and [cleanDuplicateText] *)

Module Cli.

Import NArith.

(** [s.endsWith(t)] *)
Definition endsWith (s t : jstring) : bool :=
  let n := length s in
  let m := length t in
  (m <=? n) && jeqb (skipn (n - m) s) t.

(** The field [accumulatedResponse] after one event of the bus: [onChunk]
    skips a chunk that the text already ends with and appends any other;
    [onToolResult] leaves the text alone; every other handler
    ([onThinking], [onToolCall], [onResponse], [onError],
    [onConversationReset], [onResetAccumulation]) resets it to ''. *)
Definition accumulate (accumulatedResponse : jstring) (ev : Event) : jstring :=
  match ev with
  | EvChunk text =>
      if endsWith accumulatedResponse text then accumulatedResponse
      else accumulatedResponse ++ text
  | EvToolResult _ _ => accumulatedResponse
  | EvThinking | EvToolCall _ _ | EvResponse _ | EvError _
  | EvConversationReset | EvResetAccumulation => []
  end.

Definition cu (c : ascii) : N := N_of_ascii c.

Definition backslash : N := cu "\".

Definition is_sentence_end (prev : option N) : bool :=
  match prev with
  | Some c => N.eqb c (cu ".") || N.eqb c (cu "!") || N.eqb c (cu "?")
  | None => false
  end.

Definition starts_with_s (l : jstring) : bool :=
  match l with c :: _ => N.eqb c (cu "s") | [] => false end.

(** [text.split(/(?<=[.!?])\\s+/)]: in a regular expression literal [\\]
    is one backslash, so a separator is a backslash preceded by '.', '!'
    or '?' and followed by one or more letters 's' (greedy). [prev] is the
    code unit before [l], [skipping] holds inside a separator's 's' run,
    [cur] the current fragment reversed. *)
Fixpoint split_sentences (prev : option N) (skipping : bool)
    (l cur : jstring) : list jstring :=
  match l with
  | [] => [rev cur]
  | c :: r =>
      if skipping && N.eqb c (cu "s")
      then split_sentences (Some c) true r cur
      else if is_sentence_end prev && N.eqb c backslash && starts_with_s r
      then rev cur :: split_sentences (Some c) true r []
      else split_sentences (Some c) false r (c :: cur)
  end.

Definition fragmentsOf (text : jstring) : list jstring :=
  split_sentences None false text [].

(** ['\\n'] is the two code units backslash, 'n'. *)
Definition backslash_n : jstring := [backslash; cu "n"].

Section Clean.

(** [String.prototype.toLowerCase] (Unicode case mapping). *)
Variable toLowerCase : jstring -> jstring.

(** The [for (const fragment of fragments)] loop; [seen] is the [Set] of
    normalized fragments, [uniqueFragments] the kept ones in order. *)
Fixpoint dedup_loop (fragments seen uniqueFragments : list jstring)
    : list jstring :=
  match fragments with
  | [] => uniqueFragments
  | fragment :: r =>
      let normalized := toLowerCase (trim fragment) in
      if length normalized =? 0
      then dedup_loop r seen uniqueFragments
      else if negb (existsb (jeqb normalized) seen)
      then dedup_loop r (seen ++ [normalized]) (uniqueFragments ++ [fragment])
      else match rev uniqueFragments with
           | lastU :: _ =>
               if jeqb (toLowerCase (trim lastU)) normalized
               then dedup_loop r seen uniqueFragments
               else dedup_loop r seen (uniqueFragments ++ [fragment])
           | [] => dedup_loop r seen (uniqueFragments ++ [fragment])
           end
  end.

(** [cleanDuplicateText] *)
Definition cleanDuplicateText (text0 : jstring) : jstring :=
  if negb (truthy text0) then []
  else
    let n := length text0 in
    let halfLength := n / 2 in
    let text :=
      if (1 <? n) && (n mod 2 =? 0)
         && jeqb (firstn halfLength text0) (skipn halfLength text0)
      then firstn halfLength text0
      else text0 in
    let fragments := fragmentsOf text in
    if (length fragments <=? 1)
       && negb (match DiscordBot.indexOf text backslash_n with
                | Some _ => true
                | None => false
                end)
    then text
    else trim (join (js " ") (dedup_loop fragments [] [])).

End Clean.

End Cli.

Example trim_ex : trim (js " ab c  ") = js "ab c".
Proof. reflexivity. Qed.

(** U+00A0, U+FEFF and U+3000 are whitespace for [trim]. *)
Example trim_unicode_ex : trim [0xA0; 0x61; 0xFEFF; 0x3000]%N = [0x61]%N.
Proof. reflexivity. Qed.

Example scenario_ex :
  emitted (run_signals
    (deltas [js "I'll "; js "check that."] ++
     [SStepFinish (mkStep (js "I'll check that.")
                    [mkToolCall (js "fs.list") (js "{path:.}")]
                    [mkToolResult (js "fs.list") (js "[a.txt]")])])
    (start [] [EvThinking]))
  = [EvThinking; EvChunk (js "I'll "); EvChunk (js "check that.");
     EvResponse (js "I'll check that.");
     EvToolCall (js "fs.list") (js "{path:.}");
     EvResetAccumulation; EvToolResult (js "fs.list") (js "[a.txt]")].
Proof. reflexivity. Qed.

(** ** Shape of one [onStepFinish] call *)

Ltac case_ifs :=
  repeat (cbn; match goal with
               | |- context [if ?b then _ else _] => destruct b eqn:?
               end).

(** One step-finish notice emits at most one response, then the tool calls
    with one resetAccumulation, then the tool results; it appends to the
    history exactly the assistant messages of its responses, and after a
    response, a tool-call batch or a tool-result batch the buffer is empty. *)
Lemma onStepFinish_shape (step : StepResult) (st : StreamState) :
  exists r,
    length r <= 1 /\
    emitted (onStepFinish step st) =
      emitted st ++ map EvResponse r ++ toolCallPart (toolCalls step)
        ++ toolResultEvents (toolResults step) /\
    history (onStepFinish step st) = history st ++ map AssistantMessage r /\
    (r <> [] \/ has_elems (toolCalls step) = true
      \/ has_elems (toolResults step) = true ->
     currentSegmentText (onStepFinish step st) = []).
Proof.
  destruct st as [buf h evs]; destruct step as [t calls results].
  unfold onStepFinish, toolCallPart.
  destruct calls as [|c cs]; destruct results as [|x xs];
  case_ifs; simpl in *;
    repeat rewrite <- app_assoc; simpl;
    first
      [ exists []; simpl; rewrite ?app_nil_r;
        split; [lia | split; [reflexivity | split; [reflexivity | ]]];
        intros [Hr | [Hr | Hr]]; congruence
      | eexists [_]; simpl;
        split; [lia | split; [reflexivity | split; [reflexivity | ]]];
        intros _; reflexivity ].
Qed.

(** ** Helper lemmas on the reconciler *)

Lemma responses_app (a b : list Event) :
  responses (a ++ b) = responses a ++ responses b.
Proof.
  induction a as [|e a IH]; [reflexivity|].
  destruct e; simpl; rewrite ?IH; reflexivity.
Qed.

Lemma count_reset_app (a b : list Event) :
  count_reset (a ++ b) = count_reset a + count_reset b.
Proof.
  induction a as [|e a IH]; [reflexivity|].
  destruct e; simpl; rewrite ?IH; reflexivity.
Qed.

Lemma responses_map_response (r : list jstring) :
  responses (map EvResponse r) = r.
Proof. induction r as [|x r IH]; simpl; congruence. Qed.

Lemma count_reset_map_response (r : list jstring) :
  count_reset (map EvResponse r) = 0.
Proof. induction r; simpl; auto. Qed.

Lemma responses_map_chunk (l : list jstring) :
  responses (map EvChunk l) = [].
Proof. induction l; simpl; auto. Qed.

Lemma responses_toolCallEvents (l : list ToolCall) :
  responses (toolCallEvents l) = [].
Proof. unfold toolCallEvents; induction l; simpl; auto. Qed.

Lemma responses_toolCallPart (l : list ToolCall) :
  responses (toolCallPart l) = [].
Proof.
  unfold toolCallPart, toolCallEvents.
  destruct l as [|c l]; simpl; [reflexivity|].
  rewrite responses_app; simpl.
  induction l as [|c' l IH]; simpl; auto.
Qed.

Lemma responses_toolResultEvents (l : list ToolResultT) :
  responses (toolResultEvents l) = [].
Proof. unfold toolResultEvents; induction l; simpl; auto. Qed.

Lemma count_reset_toolCallPart (l : list ToolCall) :
  count_reset (toolCallPart l) = if has_elems l then 1 else 0.
Proof.
  unfold toolCallPart, toolCallEvents.
  destruct l as [|c l]; simpl; [reflexivity|].
  rewrite count_reset_app; simpl.
  induction l as [|c' l IH]; simpl; auto.
Qed.

Lemma count_reset_toolResultEvents (l : list ToolResultT) :
  count_reset (toolResultEvents l) = 0.
Proof. unfold toolResultEvents; induction l; simpl; auto. Qed.

Lemma trim_nonempty_truthy (s : jstring) :
  trim_nonempty s = true -> truthy s = true.
Proof. destruct s; [cbv; discriminate | reflexivity]. Qed.

Lemma truthy_false (s : jstring) : truthy s = false -> s = [].
Proof. destruct s; [reflexivity | discriminate]. Qed.

Lemma run_signals_app (a b : list Signal) (st : StreamState) :
  run_signals (a ++ b) st = run_signals b (run_signals a st).
Proof. unfold run_signals; apply fold_left_app. Qed.

(** A run of text deltas appends every delta to the buffer and emits one
    chunk per non-empty delta. *)
Lemma run_deltas (ds : list jstring) (st : StreamState) :
  run_signals (deltas ds) st =
    mkStreamState (currentSegmentText st ++ concat ds)
      (history st) (emitted st ++ map EvChunk (nonempty_deltas ds)).
Proof.
  revert st; induction ds as [|d ds IH]; intros [buf h evs].
  - simpl; rewrite !app_nil_r; reflexivity.
  - change (run_signals (deltas (d :: ds)) (mkStreamState buf h evs))
      with (run_signals (deltas ds) (onChunk (TextDelta d)
                                       (mkStreamState buf h evs))).
    rewrite IH; unfold onChunk.
    destruct (truthy d) eqn:Hd; simpl.
    + rewrite Hd, <- !app_assoc; reflexivity.
    + rewrite (truthy_false d Hd); simpl; reflexivity.
Qed.

(** A step whose text has non-whitespace content emits that text as its only
    response and appends it as the only assistant message. *)
Lemma onStepFinish_text (step : StepResult) (st : StreamState) :
  trim_nonempty (text step) = true ->
  emitted (onStepFinish step st) =
    emitted st ++ EvResponse (text step) :: toolCallPart (toolCalls step)
      ++ toolResultEvents (toolResults step) /\
  history (onStepFinish step st) = history st ++ [AssistantMessage (text step)].
Proof.
  intros Ht. pose proof (trim_nonempty_truthy _ Ht) as Htr.
  destruct st as [buf h evs]; destruct step as [t calls results].
  simpl in Ht, Htr. unfold onStepFinish, toolCallPart. cbn.
  rewrite Htr, Ht.
  destruct calls as [|c cs]; destruct results as [|x xs]; cbn;
    rewrite <- ?app_assoc; simpl; auto.
Qed.

(** Effect of any one callback: at most one response, mirrored by one
    assistant message, after which the buffer is empty. *)
Lemma handle_responses (sg : Signal) (st : StreamState) :
  exists r,
    length r <= 1 /\
    responses (emitted (handle sg st)) = responses (emitted st) ++ r /\
    history (handle sg st) = history st ++ map AssistantMessage r /\
    (r <> [] -> currentSegmentText (handle sg st) = []).
Proof.
  destruct st as [buf h evs]; destruct sg as [c | e | s | ]; simpl.
  - exists []; destruct c as [d | ty]; simpl;
      [destruct (truthy d); simpl | ];
      rewrite ?responses_app, ?app_nil_r; simpl; rewrite ?app_nil_r;
      repeat split; auto; intros H; congruence.
  - exists []; unfold onError, emit; simpl; rewrite responses_app;
      simpl; rewrite !app_nil_r; repeat split; auto; intros H; congruence.
  - destruct (onStepFinish_shape s (mkStreamState buf h evs))
      as (r & Hl & He & Hh & Hb).
    exists r; rewrite He, Hh, !responses_app, responses_map_response,
      responses_toolCallPart, responses_toolResultEvents, app_nil_r.
    repeat split; auto.
  - unfold onFinish; simpl. destruct (trim_nonempty buf); simpl.
    + exists [buf]; rewrite responses_app; simpl.
      repeat split; auto.
    + exists []; rewrite ?app_nil_r; repeat split; auto.
Qed.

(** A tool-call step with a blank text flushes a buffer that has
    non-whitespace content before its tool calls. *)
Lemma onStepFinish_buffer_flush (step : StepResult) (st : StreamState) :
  has_elems (toolCalls step) = true ->
  trim_nonempty (text step) = false ->
  trim_nonempty (currentSegmentText st) = true ->
  emitted (onStepFinish step st) =
    emitted st ++ EvResponse (currentSegmentText st)
      :: toolCallEvents (toolCalls step) ++ EvResetAccumulation
      :: toolResultEvents (toolResults step) /\
  history (onStepFinish step st) =
    history st ++ [AssistantMessage (currentSegmentText st)].
Proof.
  intros Hc Ht Hb.
  destruct st as [buf h evs]; destruct step as [t calls results].
  simpl in *. destruct calls as [|c cs]; [discriminate|].
  unfold onStepFinish; cbn.
  rewrite Ht, andb_false_r; cbn. rewrite Hb; cbn.
  destruct results as [|x xs]; cbn; rewrite <- ?app_assoc; split; reflexivity.
Qed.

(** ** Claims on the streaming reconciler *)

(** C1 (counterexample): a step-finish whose reported text is non-empty but
    only whitespace (here a no-break space, U+00A0) emits no response and
    appends no assistant message. *)
Lemma C1_whitespace_step_text_not_flushed :
  let st' := run_signals (deltas [[0xA0%N]] ++
                          [SStepFinish (mkStep [0xA0%N] [] [])]) (start [] []) in
  responses (emitted st') = [] /\ history st' = [] /\
  responses (emitted st') <> [[0xA0%N]].
Proof. simpl; repeat split; discriminate. Qed.

(** C1 (amended): after any sequence of deltas, a step-finish whose reported
    text contains a character other than JavaScript whitespace adds exactly
    one response event, whose payload is the step's text, and exactly one
    assistant message with that text. *)
Theorem C1_step_text_flushed_once (st : StreamState) (ds : list jstring)
    (step : StepResult) :
  trim_nonempty (text step) = true ->
  let st' := run_signals (deltas ds ++ [SStepFinish step]) st in
  responses (emitted st') = responses (emitted st) ++ [text step] /\
  history st' = history st ++ [AssistantMessage (text step)].
Proof.
  intros Ht st'. subst st'.
  rewrite run_signals_app, run_deltas; simpl.
  destruct (onStepFinish_text step
    (mkStreamState (currentSegmentText st ++ concat ds)
       (history st) (emitted st ++ map EvChunk (nonempty_deltas ds))) Ht)
    as [He Hh].
  rewrite He, Hh; simpl; split; [|reflexivity].
  rewrite !responses_app; simpl.
  rewrite responses_app, responses_toolCallPart, responses_toolResultEvents.
  rewrite responses_map_chunk, app_nil_r; reflexivity.
Qed.

Lemma C1_witness :
  trim_nonempty (js "Found a.txt") = true /\
  (let st' := run_signals (deltas [js "Found "; js "a.txt"] ++
                [SStepFinish (mkStep (js "Found a.txt") [] [])]) (start [] []) in
   responses (emitted st') = responses (emitted (start [] [])) ++
                              [js "Found a.txt"] /\
   history st' = history (start [] []) ++ [AssistantMessage (js "Found a.txt")]).
Proof.
  split; [reflexivity|].
  apply (C1_step_text_flushed_once (start [] []) [js "Found "; js "a.txt"]
           (mkStep (js "Found a.txt") [] [])).
  reflexivity.
Defined.

(** C2 (counterexample): a buffer of whitespace (a no-break space) is not
    flushed before the tool calls of a step whose text is empty. *)
Lemma C2_whitespace_buffer_before_tool_call :
  emitted (onStepFinish (mkStep [] [mkToolCall (js "fs.list") (js "{}")] [])
             (mkStreamState [0xA0%N] [] [])) =
    [EvToolCall (js "fs.list") (js "{}"); EvResetAccumulation].
Proof. reflexivity. Qed.

(** C2 (amended): within one step-finish, at most one response comes first,
    then one toolCall event per call followed by one resetAccumulation, then
    one toolResult event per result. When the step reports tool calls and
    the buffer has non-whitespace content, that response exists: it carries
    the step's text if that has non-whitespace content, else the buffer. *)
Theorem C2_flush_before_tool_calls (step : StepResult) (st : StreamState) :
  (exists r, length r <= 1 /\
     emitted (onStepFinish step st) =
       emitted st ++ map EvResponse r ++ toolCallPart (toolCalls step)
         ++ toolResultEvents (toolResults step)) /\
  (has_elems (toolCalls step) = true ->
   trim_nonempty (currentSegmentText st) = true ->
   emitted (onStepFinish step st) =
     emitted st ++
       EvResponse (if trim_nonempty (text step) then text step
                   else currentSegmentText st)
       :: toolCallEvents (toolCalls step) ++ EvResetAccumulation
       :: toolResultEvents (toolResults step)).
Proof.
  split.
  - destruct (onStepFinish_shape step st) as (r & Hl & He & _).
    exists r; auto.
  - intros Hc Hb.
    destruct (trim_nonempty (text step)) eqn:Ht.
    + destruct (onStepFinish_text step st Ht) as [He _].
      rewrite He; unfold toolCallPart; rewrite Hc, <- app_assoc; reflexivity.
    + apply (onStepFinish_buffer_flush step st Hc Ht Hb).
Qed.

Lemma C2_witness :
  has_elems (toolCalls (mkStep [] [mkToolCall (js "fs.list") (js "{}")] [])) = true /\
  trim_nonempty (currentSegmentText (mkStreamState (js "I'll check.") [] [])) = true /\
  emitted (onStepFinish (mkStep [] [mkToolCall (js "fs.list") (js "{}")] [])
             (mkStreamState (js "I'll check.") [] [])) =
    [EvResponse (js "I'll check."); EvToolCall (js "fs.list") (js "{}");
     EvResetAccumulation].
Proof.
  split; [reflexivity|]. split; [reflexivity|].
  rewrite (proj2 (C2_flush_before_tool_calls
                    (mkStep [] [mkToolCall (js "fs.list") (js "{}")] [])
                    (mkStreamState (js "I'll check.") [] [])) eq_refl eq_refl).
  reflexivity.
Defined.

(** C3 (counterexample): a step that streams the text "\n\n" (two line
    feeds), then calls a tool and gets its result: the non-empty buffered
    text is cleared without a response event or an assistant message. *)
Lemma C3_whitespace_buffer_dropped :
  let st' := run_signals
               (deltas [[10; 10]%N] ++
                [SStepFinish (mkStep [10; 10]%N
                                [mkToolCall (js "fs.list") (js "{}")]
                                [mkToolResult (js "fs.list") (js "[a.txt]")])])
               (start [] []) in
  responses (emitted st') = [] /\ history st' = [] /\
  currentSegmentText st' = [].
Proof. repeat split. Qed.

(** C3 (amended): the buffer is flushed (one assistant message and one
    response carrying it) by a step-finish that reports tool calls with a
    blank step text, and by stream completion, when the buffer contains a
    character other than JavaScript whitespace; a step-finish whose text is
    not blank emits that text as its one response instead; and every
    callback emits at most one response, mirrored by one assistant message,
    after which the buffer is empty, so buffered text is never emitted
    twice. *)
Theorem C3_buffer_flush_points (st : StreamState) :
  (forall step,
     has_elems (toolCalls step) = true ->
     trim_nonempty (text step) = false ->
     trim_nonempty (currentSegmentText st) = true ->
     responses (emitted (onStepFinish step st)) =
       responses (emitted st) ++ [currentSegmentText st] /\
     history (onStepFinish step st) =
       history st ++ [AssistantMessage (currentSegmentText st)]) /\
  (trim_nonempty (currentSegmentText st) = true ->
   onFinish st =
     mkStreamState []
       (history st ++ [AssistantMessage (currentSegmentText st)])
       (emitted st ++ [EvResponse (currentSegmentText st)])) /\
  (forall step,
     trim_nonempty (text step) = true ->
     responses (emitted (onStepFinish step st)) =
       responses (emitted st) ++ [text step] /\
     history (onStepFinish step st) =
       history st ++ [AssistantMessage (text step)]) /\
  (forall sg, exists r,
     length r <= 1 /\
     responses (emitted (handle sg st)) = responses (emitted st) ++ r /\
     history (handle sg st) = history st ++ map AssistantMessage r /\
     (r <> [] -> currentSegmentText (handle sg st) = [])).
Proof.
  split; [|split; [|split]].
  - intros step Hc Ht Hb.
    destruct (onStepFinish_buffer_flush step _ Hc Ht Hb) as [He Hh].
    rewrite He, Hh; split; [|reflexivity].
    rewrite responses_app; simpl.
    rewrite responses_app, responses_toolCallEvents; simpl.
    rewrite responses_toolResultEvents; reflexivity.
  - destruct st as [buf h evs].
    intros Hb; simpl in *; unfold onFinish; simpl; rewrite Hb; reflexivity.
  - intros step Ht.
    destruct (onStepFinish_text step st Ht) as [He Hh].
    rewrite He, Hh; split; [|reflexivity].
    rewrite responses_app; simpl.
    rewrite responses_app, responses_toolCallPart,
      responses_toolResultEvents; reflexivity.
  - intros sg; apply handle_responses.
Qed.

Lemma C3_witness :
  has_elems (toolCalls (mkStep [] [mkToolCall (js "fs.list") (js "{}")] [])) = true /\
  trim_nonempty (text (mkStep [] [mkToolCall (js "fs.list") (js "{}")] [])) = false /\
  trim_nonempty (currentSegmentText (mkStreamState (js "I'll check.") [] [])) = true /\
  responses (emitted (onStepFinish (mkStep [] [mkToolCall (js "fs.list") (js "{}")] [])
                        (mkStreamState (js "I'll check.") [] []))) =
    [js "I'll check."] /\
  history (onStepFinish (mkStep [] [mkToolCall (js "fs.list") (js "{}")] [])
             (mkStreamState (js "I'll check.") [] [])) =
    [AssistantMessage (js "I'll check.")].
Proof.
  split; [reflexivity|]. split; [reflexivity|]. split; [reflexivity|].
  apply (proj1 (C3_buffer_flush_points (mkStreamState (js "I'll check.") [] []))
           (mkStep [] [mkToolCall (js "fs.list") (js "{}")] []));
    reflexivity.
Defined.

(** C6 (counterexample): a delta that repeats text already at the end of
    the buffer is appended again and emitted again as a chunk. *)
Lemma C6_repeated_suffix_not_filtered :
  run_signals (deltas [js "a"; js "a"]) (start [] []) =
    mkStreamState (js "aa") [] [EvChunk (js "a"); EvChunk (js "a")].
Proof. reflexivity. Qed.

(** C6 (amended): every non-empty text delta is appended to the buffer and
    emitted as one chunk event carrying exactly that delta; empty deltas and
    other chunk types change nothing; no suffix-containment check is made.
    Over a run of deltas the buffer gains the concatenation of all of them. *)
Theorem C6_every_delta_buffered (st : StreamState) (d : jstring) (ty : jstring)
    (ds : list jstring) :
  onChunk (TextDelta d) st =
    (if truthy d
     then mkStreamState (currentSegmentText st ++ d) (history st)
            (emitted st ++ [EvChunk d])
     else st) /\
  onChunk (OtherChunk ty) st = st /\
  run_signals (deltas ds) st =
    mkStreamState (currentSegmentText st ++ concat ds)
      (history st) (emitted st ++ map EvChunk (nonempty_deltas ds)).
Proof.
  split; [|split; [reflexivity | apply run_deltas]].
  destruct st as [buf h evs]; unfold onChunk; simpl.
  destruct (truthy d); reflexivity.
Qed.

Lemma count_reset_handle (sg : Signal) (st : StreamState) :
  count_reset (emitted (handle sg st)) =
    count_reset (emitted st) + (if is_tool_call_step sg then 1 else 0).
Proof.
  destruct st as [buf h evs]; destruct sg as [c | e | s | ]; simpl.
  - destruct c as [d | ty]; simpl; [destruct (truthy d); simpl|];
      rewrite ?count_reset_app; simpl; lia.
  - rewrite count_reset_app; simpl; lia.
  - destruct (onStepFinish_shape s (mkStreamState buf h evs))
      as (r & _ & He & _).
    rewrite He, !count_reset_app, count_reset_map_response,
      count_reset_toolCallPart, count_reset_toolResultEvents; simpl; lia.
  - unfold onFinish; simpl. destruct (trim_nonempty buf); simpl;
      rewrite ?count_reset_app; simpl; lia.
Qed.

(** C7: over any run of the callbacks, the number of resetAccumulation
    events emitted equals the number of step-finish notices that carry a
    non-empty tool-call batch; in particular a text-only step never emits
    one. *)
Theorem C7_reset_iff_tool_calls (sgs : list Signal) (st : StreamState) :
  count_reset (emitted (run_signals sgs st)) =
    count_reset (emitted st) + length (filter is_tool_call_step sgs).
Proof.
  revert st; induction sgs as [|sg sgs IH]; intros st; simpl.
  - lia.
  - change (run_signals (sg :: sgs) st) with (run_signals sgs (handle sg st)).
    rewrite IH, count_reset_handle.
    destruct (is_tool_call_step sg); simpl; lia.
Qed.

(** C10: one step-finish notice emits at most one response event. *)
Theorem C10_one_response_per_step (step : StepResult) (st : StreamState) :
  exists r, length r <= 1 /\
    responses (emitted (onStepFinish step st)) = responses (emitted st) ++ r.
Proof.
  destruct (onStepFinish_shape step st) as (r & Hl & He & _).
  exists r; split; [exact Hl|].
  rewrite He, !responses_app, responses_map_response, responses_toolCallPart,
    responses_toolResultEvents, app_nil_r; reflexivity.
Qed.

(** ** Lemmas on the AI SDK model *)

Lemma jeqb_refl (a : jstring) : jeqb a a = true.
Proof. induction a as [|x a IH]; simpl; [reflexivity|]. rewrite N.eqb_refl; exact IH. Qed.

Lemma jeqb_eq (a b : jstring) : jeqb a b = true -> a = b.
Proof.
  revert b; induction a as [|x a IH]; intros [|y b]; simpl; try discriminate;
    [reflexivity|].
  intros H; apply andb_true_iff in H as [Hx Hr].
  apply N.eqb_eq in Hx; subst y; f_equal; apply IH, Hr.
Qed.

Section SdkLemmas.

Variable toolKeys : list jstring.
Variable model : list Message -> list StepResult -> Result ModelAnswer.
Variable argsParse : jstring -> bool.
Variable executeTool : jstring -> jstring -> Result jstring.
Variable unknownCall : ToolCall -> CallHandling.

(** A call to a tool of the set, with arguments that parse and an
    execution that resolves. *)
Definition good_call (c : ToolCall) : Prop :=
  In (toolName c) toolKeys /\ argsParse (args c) = true /\
  exists r, executeTool (toolName c) (args c) = Ok r.

Lemma handleCall_good (c : ToolCall) :
  good_call c ->
  exists r, handleCall toolKeys argsParse executeTool unknownCall c
            = CallExecutes (Ok r).
Proof.
  intros (Hin & Hp & r & Hr). exists r. unfold handleCall.
  replace (existsb (jeqb (toolName c)) toolKeys) with true.
  - rewrite Hp, Hr; reflexivity.
  - symmetry; apply existsb_exists; exists (toolName c).
    split; [exact Hin | apply jeqb_refl].
Qed.

Lemma parseFailure_good (calls : list ToolCall) :
  Forall good_call calls ->
  parseFailure toolKeys argsParse executeTool unknownCall calls = None.
Proof.
  induction 1 as [|c r Hc _ IH]; simpl; [reflexivity|].
  destruct (handleCall_good c Hc) as [x ->]; exact IH.
Qed.

Lemma executeCalls_good (calls : list ToolCall) :
  Forall good_call calls ->
  exists results,
    executeCalls toolKeys argsParse executeTool unknownCall calls
      = (results, []) /\ length results = length calls.
Proof.
  induction 1 as [|c r Hc _ IH]; simpl.
  - exists []; split; reflexivity.
  - destruct IH as (res & -> & Hl).
    destruct (handleCall_good c Hc) as [x ->].
    eexists; split; [reflexivity | simpl; congruence].
Qed.

(** A model that always answers with tool calls to the tool set. *)
Hypothesis always_tool_calls :
  forall h prev, exists a,
    model h prev = Ok a /\ has_elems (answerToolCalls a) = true /\
    Forall good_call (answerToolCalls a).

Lemma steps_loop_tool_calls (f : nat) (h : list Message)
    (prev : list StepResult) :
  exists new,
    steps_loop toolKeys model argsParse executeTool unknownCall f h prev
      = (prev ++ new, None) /\
    length new = S f /\
    Forall (fun st => exists pv a, model h pv = Ok a /\ text st = answerText a)
      new.
Proof.
  revert prev; induction f as [|f IH]; intros prev;
    destruct (always_tool_calls h prev) as (a & Hm & Hc & Hg);
    destruct (executeCalls_good _ Hg) as (res & Hex & Hl);
    simpl; unfold runStep; rewrite Hm, (parseFailure_good _ Hg), Hex.
  - eexists; split; [reflexivity|]. split; [reflexivity|].
    constructor; [exists prev, a; split; [exact Hm | reflexivity] | constructor].
  - simpl; rewrite Hc, Hl, Nat.eqb_refl; simpl.
    destruct (IH (prev ++ [mkStep (answerText a) (answerToolCalls a) res]))
      as (new & -> & Hn & Hf).
    exists (mkStep (answerText a) (answerToolCalls a) res :: new).
    rewrite <- app_assoc; split; [reflexivity|]. split; [simpl; lia|].
    constructor; [exists prev, a; split; [exact Hm | reflexivity] | exact Hf].
Qed.

End SdkLemmas.

Lemma lastText_empty (l : list StepResult) :
  Forall (fun st => text st = []) l -> lastText l = [].
Proof.
  intros H; unfold lastText.
  apply Forall_rev in H; destruct (rev l) as [|x r]; [reflexivity|].
  inversion H; assumption.
Qed.

(** [completeTask] with a tool listing that resolves: one pass of its loop,
    one SDK call on the history ending with the user message. *)
Lemma completeTask_unfold (getAllTools : Result (list jstring)) tools sdk n
    userInput s :
  getAllTools = Ok tools ->
  completeTask getAllTools sdk n userInput s =
    let s1 := addUserMessage userInput s in
    let s2 := emitS EvThinking s1 in
    match generateText sdk (messages s2) n s2 with
    | (Ok t, s3) => (Ok (if truthy t then t else exhaustionMessage), s3)
    | (Throw e, s3) => (Ok (errorPrefix ++ e), emitS (EvError e) s3)
    end.
Proof.
  intros ->; unfold completeTask; cbn -[generateText].
  destruct (generateText sdk _ n _) as [[t|e] s3]; reflexivity.
Qed.

(** ** Claims on the service *)




(** C5 (code bug): the tool listing is fetched before the [try] block, so
    its rejection escapes both entry points instead of being turned into
    the returned string or an error event. *)
Theorem C5_tool_listing_rejection_escapes (err : jstring)
    (sdk : list Message -> nat -> list StepResult * option jstring)
    (sdkS : list Message -> nat -> Result (list Signal * Consumption))
    (maxIterations : nat) (userInput : jstring) (s : Svc) :
  completeTask (Throw err) sdk maxIterations userInput s =
    (Throw err, addUserMessage userInput s) /\
  completeTaskStreaming (Throw err) sdkS maxIterations userInput s =
    (Throw err, addUserMessage userInput s).
Proof. split; reflexivity. Qed.

(** C9: [resetConversation] empties the history and emits one
    conversationReset event; calling it twice leaves the same (empty)
    history as calling it once. *)
Theorem C9_reset_idempotent (s : Svc) :
  messages (resetConversation s) = [] /\
  bus (resetConversation s) = bus s ++ [EvConversationReset] /\
  messages (resetConversation (resetConversation s)) =
    messages (resetConversation s) /\
  bus (resetConversation (resetConversation s)) =
    bus s ++ [EvConversationReset; EvConversationReset].
Proof.
  repeat split; simpl; rewrite <- ?app_assoc; reflexivity.
Qed.
(** ** Further properties of vercel.ts *)

Module VercelProps.

Import VercelExtra.

Lemma chunks_of_app (a b : list Event) :
  chunks_of (a ++ b) = chunks_of a ++ chunks_of b.
Proof.
  induction a as [|e a IH]; [reflexivity|].
  destruct e; simpl; rewrite ?IH; reflexivity.
Qed.

Lemma count_errors_app (a b : list Event) :
  count_errors (a ++ b) = count_errors a + count_errors b.
Proof.
  induction a as [|e a IH]; [reflexivity|].
  destruct e; simpl; rewrite ?IH; reflexivity.
Qed.

Lemma chunks_of_toolCallPart (l : list ToolCall) : chunks_of (toolCallPart l) = [].
Proof.
  unfold toolCallPart, toolCallEvents; destruct (has_elems l); [|reflexivity].
  rewrite chunks_of_app; induction l; simpl; auto.
Qed.

Lemma count_errors_toolCallPart (l : list ToolCall) :
  count_errors (toolCallPart l) = 0.
Proof.
  unfold toolCallPart, toolCallEvents; destruct (has_elems l); [|reflexivity].
  rewrite count_errors_app; induction l; simpl; auto.
Qed.

Lemma chunks_of_toolCallEvents (l : list ToolCall) :
  chunks_of (toolCallEvents l) = [].
Proof. unfold toolCallEvents; induction l; simpl; auto. Qed.

Lemma count_errors_toolCallEvents (l : list ToolCall) :
  count_errors (toolCallEvents l) = 0.
Proof. unfold toolCallEvents; induction l; simpl; auto. Qed.

Lemma chunks_of_toolResultEvents (l : list ToolResultT) :
  chunks_of (toolResultEvents l) = [].
Proof. unfold toolResultEvents; induction l; simpl; auto. Qed.

Lemma count_errors_toolResultEvents (l : list ToolResultT) :
  count_errors (toolResultEvents l) = 0.
Proof. unfold toolResultEvents; induction l; simpl; auto. Qed.

Lemma count_reset_toolCallEvents (l : list ToolCall) :
  count_reset (toolCallEvents l) = 0.
Proof. unfold toolCallEvents; induction l; simpl; auto. Qed.

Lemma chunks_of_map_response (r : list jstring) :
  chunks_of (map EvResponse r) = [].
Proof. induction r; simpl; auto. Qed.

Lemma count_errors_map_response (r : list jstring) :
  count_errors (map EvResponse r) = 0.
Proof. induction r; simpl; auto. Qed.

Lemma handle_chunks_errors (sg : Signal) (st : StreamState) :
  chunks_of (emitted (handle sg st)) =
    chunks_of (emitted st) ++ signal_delta sg /\
  count_errors (emitted (handle sg st)) =
    count_errors (emitted st) + (if is_error_signal sg then 1 else 0).
Proof.
  destruct st as [buf h evs]; destruct sg as [c | e | s | ]; simpl.
  - destruct c as [d | ty]; simpl; [destruct (truthy d); simpl|];
      rewrite ?chunks_of_app, ?count_errors_app; simpl;
      rewrite ?app_nil_r; split; auto; lia.
  - rewrite chunks_of_app, count_errors_app; simpl;
      rewrite app_nil_r; split; auto; lia.
  - destruct (onStepFinish_shape s (mkStreamState buf h evs))
      as (r & _ & He & _).
    rewrite He, !chunks_of_app, !count_errors_app, chunks_of_map_response,
      chunks_of_toolCallPart, chunks_of_toolResultEvents,
      count_errors_map_response, count_errors_toolCallPart,
      count_errors_toolResultEvents; simpl; rewrite !app_nil_r; split; auto.
  - unfold onFinish; simpl. destruct (trim_nonempty buf); simpl;
      rewrite ?chunks_of_app, ?count_errors_app; simpl;
      rewrite ?app_nil_r; split; auto; lia.
Qed.

Lemma run_chunks_errors (sgs : list Signal) (st : StreamState) :
  chunks_of (emitted (run_signals sgs st)) =
    chunks_of (emitted st) ++ flat_map signal_delta sgs /\
  count_errors (emitted (run_signals sgs st)) =
    count_errors (emitted st) + length (filter is_error_signal sgs).
Proof.
  revert st; induction sgs as [|sg sgs IH]; intros st; simpl.
  - rewrite app_nil_r; split; auto.
  - change (run_signals (sg :: sgs) st) with (run_signals sgs (handle sg st)).
    destruct (IH (handle sg st)) as [H1 H2].
    destruct (handle_chunks_errors sg st) as [H3 H4].
    rewrite H1, H2, H3, H4, app_assoc.
    split; [reflexivity|]. destruct (is_error_signal sg); simpl; lia.
Qed.

Lemma run_responses (sgs : list Signal) (st : StreamState) :
  exists r,
    responses (emitted (run_signals sgs st)) = responses (emitted st) ++ r /\
    history (run_signals sgs st) = history st ++ map AssistantMessage r.
Proof.
  revert st; induction sgs as [|sg sgs IH]; intros st.
  - exists []; simpl; rewrite !app_nil_r; split; reflexivity.
  - change (run_signals (sg :: sgs) st) with (run_signals sgs (handle sg st)).
    destruct (handle_responses sg st) as (r1 & _ & Hr1 & Hh1 & _).
    destruct (IH (handle sg st)) as (r2 & Hr2 & Hh2).
    exists (r1 ++ r2); rewrite Hr2, Hh2, Hr1, Hh1, map_app, !app_assoc.
    split; reflexivity.
Qed.

Lemma generateStepEvents_chunks (l : list StepResult) :
  chunks_of (flat_map generateStepEvents l) = [] /\
  count_reset (flat_map generateStepEvents l) = 0.
Proof.
  induction l as [|[t calls results] l [IH1 IH2]]; [split; reflexivity|].
  simpl; rewrite chunks_of_app, count_reset_app, IH1, IH2.
  unfold generateStepEvents; simpl.
  rewrite !chunks_of_app, !count_reset_app.
  destruct (truthy t), (has_elems calls), (has_elems results); simpl;
    rewrite ?chunks_of_toolCallEvents, ?chunks_of_toolResultEvents,
      ?count_reset_toolCallEvents, ?count_reset_toolResultEvents;
    split; reflexivity.
Qed.

(** [completeTask] with a tool listing that resolves. The SDK is called
    once, on the history ending with the user message. Its steps' events
    are published after one thinking event. If the SDK succeeds, the steps
    are recorded in the history and the last step's text is returned, or the
    exhaustion message when that text is empty. If the SDK throws, the call
    still resolves, with "Error processing request: " and the error message;
    the events of the steps completed before the error stay published, an
    error event follows them, and none of those steps is recorded in the
    history. *)
Theorem completeTask_outcome (tools : list jstring) sdk n userInput s :
  completeTask (Ok tools) sdk n userInput s =
    match sdk (messages s ++ [UserMessage userInput]) n with
    | (steps, None) =>
        (Ok (if truthy (lastText steps) then lastText steps
             else exhaustionMessage),
         mkSvc (messages s ++ UserMessage userInput
                  :: flat_map stepMessages steps)
               (bus s ++ EvThinking :: flat_map generateStepEvents steps))
    | (steps, Some e) =>
        (Ok (errorPrefix ++ e),
         mkSvc (messages s ++ [UserMessage userInput])
               (bus s ++ EvThinking :: flat_map generateStepEvents steps
                  ++ [EvError e]))
    end.
Proof.
  rewrite (completeTask_unfold (Ok tools) tools sdk n userInput s eq_refl).
  cbn. unfold generateText; cbn.
  destruct (sdk (messages s ++ [UserMessage userInput]) n) as [steps [e|]];
    unfold emitS, processLLMResponse; cbn; rewrite <- !app_assoc; reflexivity.
Qed.

(** The non-streaming [completeTask] never publishes a chunk event or a
    resetAccumulation event, whatever the tool listing and the SDK do. *)
Theorem completeTask_no_chunks (getAllTools : Result (list jstring)) sdk n
    userInput s :
  chunks_of (bus (snd (completeTask getAllTools sdk n userInput s)))
    = chunks_of (bus s) /\
  count_reset (bus (snd (completeTask getAllTools sdk n userInput s)))
    = count_reset (bus s).
Proof.
  destruct getAllTools as [tools | err].
  - rewrite completeTask_outcome.
    destruct (sdk _ n) as [steps [e|]]; simpl;
      destruct (generateStepEvents_chunks steps) as [H1 H2];
      rewrite ?chunks_of_app, ?count_reset_app; simpl;
      rewrite ?chunks_of_app, ?count_reset_app, ?H1, ?H2; simpl;
      rewrite ?app_nil_r; split; auto.
  - simpl; split; reflexivity.
Qed.

(** [completeTaskStreaming] with a tool listing that resolves never throws.
    It publishes one chunk event per non-empty text delta the SDK delivers,
    in order, and no other chunk. The number of error events it publishes
    is 1 when [streamText] itself throws; otherwise it is the number of
    [onError] notices, plus 1 when consuming the text stream throws or the
    stream is not iterable. *)
Theorem completeTaskStreaming_outcome (tools : list jstring) sdkS n userInput s :
  let '(res, s') := completeTaskStreaming (Ok tools) sdkS n userInput s in
  res = Ok tt /\
  match sdkS (messages s ++ [UserMessage userInput]) n with
  | Throw _ =>
      chunks_of (bus s') = chunks_of (bus s) /\
      count_errors (bus s') = count_errors (bus s) + 1
  | Ok (sigs, outcome) =>
      chunks_of (bus s') = chunks_of (bus s) ++ flat_map signal_delta sigs /\
      count_errors (bus s') =
        count_errors (bus s) + length (filter is_error_signal sigs)
        + (match outcome with Consumed => 0 | _ => 1 end)
  end.
Proof.
  unfold completeTaskStreaming, processStream; cbn.
  destruct (sdkS (messages s ++ [UserMessage userInput]) n)
    as [[sigs outcome] | e]; cbn.
  - destruct (run_chunks_errors sigs
                (start (messages s ++ [UserMessage userInput])
                   (bus s ++ [EvThinking]))) as [H1 H2].
    simpl in H1, H2.
    rewrite chunks_of_app in H1; rewrite count_errors_app in H2;
    simpl in H1, H2.
    rewrite app_nil_r in H1.
    destruct outcome; cbn; (split; [reflexivity|]);
      rewrite ?chunks_of_app, ?count_errors_app, H1, H2; simpl;
      rewrite ?app_nil_r; split; auto; lia.
  - split; [reflexivity|].
    rewrite !chunks_of_app, !count_errors_app; simpl; rewrite !app_nil_r.
    split; auto; lia.
Qed.

(** In streaming mode the history mirrors the response events: after
    [completeTaskStreaming] with a tool listing that resolves, the history
    is the old one, the user message, and one assistant message per
    response event published during the call, in the same order. *)
Theorem completeTaskStreaming_history (tools : list jstring) sdkS n userInput s :
  exists r,
    responses (bus (snd (completeTaskStreaming (Ok tools) sdkS n userInput s)))
      = responses (bus s) ++ r /\
    messages (snd (completeTaskStreaming (Ok tools) sdkS n userInput s))
      = messages s ++ UserMessage userInput :: map AssistantMessage r.
Proof.
  unfold completeTaskStreaming, processStream; cbn.
  destruct (sdkS (messages s ++ [UserMessage userInput]) n)
    as [[sigs outcome] | e]; cbn.
  - destruct (run_responses sigs
                (start (messages s ++ [UserMessage userInput])
                   (bus s ++ [EvThinking]))) as (r & Hr & Hh).
    simpl in Hr, Hh. rewrite responses_app in Hr; simpl in Hr.
    exists r.
    destruct outcome; cbn; rewrite ?responses_app, Hr, Hh, <- ?app_assoc;
      simpl; rewrite ?app_nil_r; split; reflexivity.
  - exists []; rewrite !responses_app; simpl; rewrite !app_nil_r.
    split; reflexivity.
Qed.

End VercelProps.

(** ** Properties of [formatTools] *)

Module FormatToolsProps.

Import VercelExtra.

Lemma obj_set_fresh {V} (k : jstring) (v : V) (o : list (jstring * V)) :
  ~ In k (map fst o) -> obj_set k v o = o ++ [(k, v)].
Proof.
  induction o as [|[k' v'] o IH]; intros Hn; [reflexivity|].
  simpl in *. destruct (jeqb k k') eqn:Hk.
  - exfalso; apply Hn; left; symmetry; apply jeqb_eq, Hk.
  - rewrite IH; [reflexivity|]. intros Hi; apply Hn; right; exact Hi.
Qed.

Lemma obj_get_in {V} (k : jstring) (v : V) (l : list (jstring * V)) :
  NoDup (map fst l) -> In (k, v) l -> obj_get k l = Some v.
Proof.
  induction l as [|[k' v'] l IH]; intros Hd Hi; [destruct Hi|].
  simpl in *. inversion Hd as [|? ? Hn Hd']; subst.
  destruct Hi as [Heq | Hi].
  - injection Heq as -> ->. rewrite jeqb_refl; reflexivity.
  - destruct (jeqb k k') eqn:Hk.
    + apply jeqb_eq in Hk; subst k'.
      exfalso; apply Hn. apply (in_map fst) in Hi; exact Hi.
    + apply IH; assumption.
Qed.

Lemma obj_get_notin {V} (k : jstring) (l : list (jstring * V)) :
  ~ In k (map fst l) -> obj_get k l = None.
Proof.
  induction l as [|[k' v'] l IH]; intros Hn; [reflexivity|].
  simpl in *. destruct (jeqb k k') eqn:Hk.
  - exfalso; apply Hn; left; symmetry; apply jeqb_eq, Hk.
  - apply IH; intros Hi; apply Hn; right; exact Hi.
Qed.

Lemma obj_get_some {V} (k : jstring) (l : list (jstring * V)) :
  In k (map fst l) -> exists v, obj_get k l = Some v.
Proof.
  induction l as [|[k' v'] l IH]; intros Hi; [destruct Hi|].
  simpl in *. destruct (jeqb k k') eqn:Hk; [eexists; reflexivity|].
  destruct Hi as [<- | Hi]; [rewrite jeqb_refl in Hk; discriminate|].
  apply IH, Hi.
Qed.

Lemma insertIndexed_perm (p : N * jstring) (l : list (N * jstring)) :
  Permutation (map snd (insertIndexed p l)) (snd p :: map snd l).
Proof.
  induction l as [|q l IH]; simpl; [reflexivity|].
  destruct (fst p <? fst q)%N; simpl; [reflexivity|].
  rewrite IH; apply perm_swap.
Qed.

(** [Object.keys] lists each own key once. *)
Lemma objectKeys_perm {V} (o : list (jstring * V)) :
  Permutation (objectKeys o) (map fst o).
Proof.
  unfold objectKeys. induction (map fst o) as [|k ks IH]; simpl; [reflexivity|].
  destruct (array_index k) as [n|] eqn:Hk; unfold not_index in *; rewrite Hk.
  - rewrite insertIndexed_perm; simpl. apply perm_skip, IH.
  - rewrite <- Permutation_middle. apply perm_skip, IH.
Qed.

(** The entry that the reduce callback adds for a key. *)
Definition entryOf (tools : list (jstring * McpTool)) (k : jstring)
    : list (jstring * VercelTool) :=
  match obj_get k tools with
  | Some t => if jeqb k protoKey then [] else [(k, formatTool k t)]
  | None => []
  end.

Lemma formatTools_fold (tools : list (jstring * McpTool)) (ks : list jstring)
    (acc : list (jstring * VercelTool)) :
  NoDup (map fst acc ++ ks) ->
  fold_left
    (fun acc toolName =>
       match obj_get toolName tools with
       | Some t => obj_assign toolName (formatTool toolName t) acc
       | None => acc
       end)
    ks acc = acc ++ flat_map (entryOf tools) ks.
Proof.
  revert acc; induction ks as [|k ks IH]; intros acc Hd.
  - simpl; rewrite app_nil_r; reflexivity.
  - simpl. unfold entryOf at 1.
    destruct (obj_get k tools) as [t|].
    + unfold obj_assign. destruct (jeqb k protoKey).
      * rewrite IH; [reflexivity|]. apply (NoDup_remove_1 _ _ _ Hd).
      * rewrite obj_set_fresh.
        -- rewrite IH; [rewrite <- app_assoc; reflexivity|].
           rewrite map_app, <- app_assoc; exact Hd.
        -- intros Hi. apply (NoDup_remove_2 _ _ _ Hd).
           apply in_or_app; left; exact Hi.
    + rewrite IH; [reflexivity|]. apply (NoDup_remove_1 _ _ _ Hd).
Qed.

Lemma entryOf_keys (tools : list (jstring * McpTool)) (ks : list jstring) :
  (forall k, In k ks -> In k (map fst tools)) ->
  map fst (flat_map (entryOf tools) ks)
    = filter (fun k => negb (jeqb k protoKey)) ks.
Proof.
  induction ks as [|k ks IH]; intros Hin; [reflexivity|].
  simpl. rewrite map_app, IH by (intros k' Hk'; apply Hin; right; exact Hk').
  unfold entryOf.
  destruct (obj_get_some k tools (Hin k (or_introl eq_refl))) as [t ->].
  destruct (jeqb k protoKey); reflexivity.
Qed.

(** [formatTools] on a tool set with distinct names: its keys are those of
    [Object.keys(tools)] (array indices first, in numeric order, then the
    other names in creation order) except "__proto__", whose assignment
    sets the accumulator's prototype and adds no key. Every other tool is
    kept under its own name, with the tool's description, its parameters
    wrapped by [jsonSchema], and an [execute] that calls
    [clientManager.executeTool] with that same tool name and the arguments
    it receives. *)
Theorem formatTools_pointwise (tools : list (jstring * McpTool)) :
  NoDup (map fst tools) ->
  map fst (formatTools tools)
    = filter (fun k => negb (jeqb k protoKey)) (objectKeys tools) /\
  (forall k t a,
     In (k, t) tools -> k <> protoKey ->
     exists v, obj_get k (formatTools tools) = Some v /\
       vDescription v = mcpDescription t /\
       vParameters v = jsonSchema (mcpParameters t) /\
       vExecute v a = (k, a)) /\
  obj_get protoKey (formatTools tools) = None.
Proof.
  intros Hd.
  pose proof (objectKeys_perm tools) as Hp.
  assert (Hf : formatTools tools = flat_map (entryOf tools) (objectKeys tools)).
  { unfold formatTools. apply formatTools_fold.
    simpl. apply (Permutation_NoDup (Permutation_sym Hp)), Hd. }
  assert (Hk : map fst (formatTools tools)
               = filter (fun k => negb (jeqb k protoKey)) (objectKeys tools)).
  { rewrite Hf. apply entryOf_keys.
    intros k Hi; apply (Permutation_in _ Hp), Hi. }
  assert (Hnd : NoDup (map fst (formatTools tools))).
  { rewrite Hk. apply NoDup_filter.
    apply (Permutation_NoDup (Permutation_sym Hp)), Hd. }
  split; [exact Hk|split].
  - intros k t a Hi Hne. exists (formatTool k t).
    split; [|repeat split; reflexivity].
    apply obj_get_in; [exact Hnd|].
    rewrite Hf. apply in_flat_map. exists k. split.
    + apply (Permutation_in _ (Permutation_sym Hp)).
      apply (in_map fst) in Hi; exact Hi.
    + unfold entryOf. rewrite (obj_get_in k t tools Hd Hi).
      destruct (jeqb k protoKey) eqn:Hpk.
      * exfalso; apply Hne, jeqb_eq, Hpk.
      * left; reflexivity.
  - apply obj_get_notin. rewrite Hk. intros Hi.
    apply filter_In in Hi as [_ Hi]. rewrite jeqb_refl in Hi; discriminate.
Qed.

Lemma formatTools_pointwise_witness :
  NoDup (map fst [(js "read_file", mkMcpTool (js "Read a file") (js "{}"));
                  (js "10", mkMcpTool (js "Ten") (js "{}"));
                  (protoKey, mkMcpTool (js "Proto") (js "{}"));
                  (js "2", mkMcpTool (js "Two") (js "{}"))]) /\
  map fst (formatTools
             [(js "read_file", mkMcpTool (js "Read a file") (js "{}"));
              (js "10", mkMcpTool (js "Ten") (js "{}"));
              (protoKey, mkMcpTool (js "Proto") (js "{}"));
              (js "2", mkMcpTool (js "Two") (js "{}"))])
    = [js "2"; js "10"; js "read_file"].
Proof.
  assert (Hd : NoDup (map fst
                 [(js "read_file", mkMcpTool (js "Read a file") (js "{}"));
                  (js "10", mkMcpTool (js "Ten") (js "{}"));
                  (protoKey, mkMcpTool (js "Proto") (js "{}"));
                  (js "2", mkMcpTool (js "Two") (js "{}"))])).
  { simpl. repeat constructor; simpl;
      intros H; repeat destruct H as [H|H]; try discriminate H; exact H. }
  split; [exact Hd|].
  rewrite (proj1 (formatTools_pointwise _ Hd)). reflexivity.
Defined.

End FormatToolsProps.

(** ** Properties of [AceAgent] *)

Module AgentProps.

Import Agent.

Lemma validateServices_spec (present : ServiceName -> bool)
    (l : list ServiceName) :
  (validateServices present l = Ok tt <-> Forall (fun s => present s = true) l) /\
  (forall m, validateServices present l = Throw m ->
   exists pre s post,
     l = pre ++ s :: post /\ Forall (fun s => present s = true) pre /\
     present s = false /\
     m = js "Required service " ++ serviceKey s
          ++ js " is missing in AceAgent constructor").
Proof.
  induction l as [|x l [IH1 IH2]]; simpl.
  - split; [split; intros; [constructor|reflexivity]|].
    intros m H; discriminate.
  - destruct (present x) eqn:Hx.
    + split.
      * rewrite IH1; split; intros H; [constructor; assumption|].
        inversion H; assumption.
      * intros m Hm. destruct (IH2 m Hm) as (pre & s & post & Hl & Hp & Hs & Hm').
        exists (x :: pre), s, post; subst; repeat split; auto.
    + split.
      * split; intros H; [discriminate|]. inversion H; congruence.
      * intros m Hm; injection Hm as <-.
        exists [], x, l; repeat split; auto.
Qed.

(** The [AceAgent] constructor succeeds exactly when all six required
    services are present. When one is missing it throws an error naming the
    first missing service in the order clientManager, promptManager,
    llmService, agentEventBus, messageManager, configManager. *)
Theorem constructAceAgent_checks (present : ServiceName -> bool) :
  (constructAceAgent present = Ok tt <-> forall s, present s = true) /\
  (forall m, constructAceAgent present = Throw m ->
   exists pre s post,
     requiredServices = pre ++ s :: post /\
     Forall (fun s => present s = true) pre /\ present s = false /\
     m = js "Required service " ++ serviceKey s
          ++ js " is missing in AceAgent constructor").
Proof.
  destruct (validateServices_spec present requiredServices) as [H1 H2].
  split; [|exact H2].
  unfold constructAceAgent; rewrite H1; split.
  - intros H s. rewrite Forall_forall in H. apply H.
    destruct s; simpl; tauto.
  - intros H. rewrite Forall_forall; intros s _; apply H.
Qed.

Lemma completeTask_ok_lemma (tools : list jstring) sdk n userInput s :
  exists r s', completeTask (Ok tools) sdk n userInput s = (Ok r, s').
Proof.
  rewrite (completeTask_unfold (Ok tools) tools sdk n userInput s eq_refl).
  cbn -[generateText].
  destruct (generateText sdk _ n _) as [[t|e] s3]; eexists; eexists; reflexivity.
Qed.

Lemma completeTaskStreaming_ok_lemma (tools : list jstring) sdkS n userInput s :
  exists s', completeTaskStreaming (Ok tools) sdkS n userInput s = (Ok tt, s').
Proof.
  unfold completeTaskStreaming; cbn -[processStream].
  destruct (processStream sdkS _ n _) as [[u|e] s3]; eexists; reflexivity.
Qed.

(** [AceAgent.run] rejects exactly when the tool listing rejects, with the
    same error. Otherwise it resolves: to [undefined] in streaming mode,
    and to the response string in the default non-streaming mode. *)
Theorem run_resolution (getAllTools : Result (list jstring)) sdk sdkS n
    userInput (streamingEnabled : bool) s :
  match getAllTools with
  | Throw e => fst (run getAllTools sdk sdkS n userInput streamingEnabled s)
               = Throw e
  | Ok _ =>
      if streamingEnabled
      then fst (run getAllTools sdk sdkS n userInput streamingEnabled s) = Ok None
      else exists r,
        fst (run getAllTools sdk sdkS n userInput streamingEnabled s) = Ok (Some r)
  end.
Proof.
  destruct getAllTools as [tools | e]; destruct streamingEnabled;
    unfold run; cbn -[completeTask completeTaskStreaming].
  3, 4: unfold completeTask, completeTaskStreaming; reflexivity.
  - destruct (completeTaskStreaming_ok_lemma tools sdkS n userInput s) as [s' ->].
    reflexivity.
  - destruct (completeTask_ok_lemma tools sdk n userInput s) as [r [s' ->]].
    exists r; reflexivity.
Qed.

End AgentProps.

(** ** Properties of the Discord bot *)

Module DiscordProps.

Import VercelExtra DiscordBot QArith.
Local Open Scope nat_scope.

(** *** Strings *)

Lemma prefix_app (p s : jstring) : prefix p (p ++ s) = true.
Proof.
  induction p as [|a p IH]; [destruct s; reflexivity|].
  simpl. rewrite N.eqb_refl; exact IH.
Qed.

Lemma prefix_decompose (p s : jstring) :
  prefix p s = true -> exists post, s = p ++ post.
Proof.
  revert s; induction p as [|a p IH]; intros s H.
  - exists s; reflexivity.
  - destruct s as [|b s]; [discriminate|]. simpl in H.
    apply andb_true_iff in H as [Hab H]. apply N.eqb_eq in Hab; subst b.
    destruct (IH s H) as [post ->]. exists post; reflexivity.
Qed.

Lemma indexOf_from_eq (pat s : jstring) (i : nat) :
  indexOf_from pat s i =
    if prefix pat s then Some i
    else match s with
         | [] => None
         | _ :: s' => indexOf_from pat s' (S i)
         end.
Proof. destruct s; reflexivity. Qed.

Lemma indexOf_from_found (pat s : jstring) (i j : nat) :
  indexOf_from pat s i = Some j ->
  exists pre post, s = pre ++ pat ++ post.
Proof.
  revert i; induction s as [|a s IH]; intros i H;
    rewrite indexOf_from_eq in H.
  - destruct (prefix pat []) eqn:Hp; [|discriminate].
    destruct (prefix_decompose _ _ Hp) as [post Hs].
    exists [], post; exact Hs.
  - destruct (prefix pat (a :: s)) eqn:Hp.
    + destruct (prefix_decompose _ _ Hp) as [post Hs].
      exists [], post; exact Hs.
    + destruct (IH (S i) H) as (pre & post & ->).
      exists (a :: pre), post; reflexivity.
Qed.

(** The code unit of '!'. *)
Definition bang : N := 33%N.

Lemma indexOf_after_prefix (pre rest : jstring) (i : nat) :
  ~ In bang pre ->
  indexOf_from askMarker (pre ++ askMarker ++ rest) i
    = Some (i + length pre).
Proof.
  revert i; induction pre as [|a pre IH]; intros i Hn.
  - change ([] ++ askMarker ++ rest) with (askMarker ++ rest).
    rewrite indexOf_from_eq, prefix_app, Nat.add_0_r; reflexivity.
  - rewrite indexOf_from_eq.
    replace (prefix askMarker ((a :: pre) ++ askMarker ++ rest)) with false.
    + change ((a :: pre) ++ askMarker ++ rest)
        with (a :: (pre ++ askMarker ++ rest)).
      cbv beta iota.
      rewrite IH by (intros H; apply Hn; right; exact H).
      simpl; f_equal; lia.
    + change (prefix askMarker ((a :: pre) ++ askMarker ++ rest))
        with (N.eqb bang a && prefix (js "ask ") (pre ++ askMarker ++ rest)).
      destruct (N.eqb bang a) eqn:Ha; [|reflexivity].
      apply N.eqb_eq in Ha. exfalso; apply Hn; left; symmetry; exact Ha.
Qed.

Lemma skipn_length_app (u v : jstring) : skipn (length u) (u ++ v) = v.
Proof. induction u as [|a u IH]; simpl; [reflexivity | exact IH]. Qed.

(** In a guild channel the prompt is the trimmed text after the first
    "!ask " (here, one preceded by no '!' character). A guild message that
    does not contain "!ask " is ignored. In a direct message the prompt is
    the whole trimmed content, "!ask " included. In all cases an empty
    prompt is ignored; [trim] strips all JavaScript whitespace. *)
Theorem extractUserText_cases :
  (forall content,
     extractUserText true content =
       if trim_nonempty content then Some (trim content) else None) /\
  (forall content,
     (forall pre post, content <> pre ++ askMarker ++ post) ->
     extractUserText false content = None) /\
  (forall pre rest,
     ~ In bang pre ->
     extractUserText false (pre ++ askMarker ++ rest) =
       if trim_nonempty rest then Some (trim rest) else None).
Proof.
  split; [|split].
  - intros content; unfold extractUserText; simpl. reflexivity.
  - intros content Hno; unfold extractUserText, indexOf.
    destruct (indexOf_from askMarker content 0) as [j|] eqn:Hi; [|reflexivity].
    exfalso. destruct (indexOf_from_found _ _ _ _ Hi) as (pre & post & Hc).
    exact (Hno pre post Hc).
  - intros pre rest Hn; unfold extractUserText, indexOf.
    rewrite (indexOf_after_prefix pre rest 0 Hn), Nat.add_0_l.
    cbn [negb andb]; cbv beta iota zeta.
    replace (length pre + 5) with (length (pre ++ askMarker))
      by (rewrite length_app; reflexivity).
    unfold slice_from. rewrite app_assoc, skipn_length_app. reflexivity.
Qed.

(** *** [downloadFileAsBase64] *)

Local Open Scope N_scope.

Lemma receive_total (Byte : Type) (d : N) (acc data : list (list Byte)) :
  d <= MAX_BYTES ->
  receive Byte d acc data =
    if d + N.of_nat (length (concat data)) <=? MAX_BYTES
    then Some (acc ++ data) else None.
Proof.
  revert d acc; induction data as [|c data IH]; intros d acc Hd.
  - cbn [receive concat length]. rewrite app_nil_r, N.add_0_r.
    apply N.leb_le in Hd; rewrite Hd; reflexivity.
  - cbn [receive]. cbv zeta.
    rewrite concat_cons, length_app, Nat2N.inj_add.
    destruct (MAX_BYTES <? d + N.of_nat (length c)) eqn:Hlt.
    + apply N.ltb_lt in Hlt.
      destruct (d + (N.of_nat (length c) + N.of_nat (length (concat data)))
                <=? MAX_BYTES) eqn:Hle; [|reflexivity].
      apply N.leb_le in Hle; lia.
    + apply N.ltb_ge in Hlt. rewrite IH by exact Hlt.
      rewrite <- app_assoc, N.add_assoc. reflexivity.
Qed.

Close Scope N_scope.


(** *** Replies *)

Lemma length_zero (s : jstring) : length s = 0 -> s = [].
Proof. destruct s; [reflexivity | discriminate]. Qed.

Lemma sendChunks_empty (f : nat) (b : bool) (r : jstring) :
  length r = 0 -> sendChunks f b r = [].
Proof.
  intros H; destruct f as [|f]; [reflexivity|].
  change (sendChunks (S f) b r)
    with (if 0 <? length r then
            (if b then BotReply (slice_to MAX r) else BotSend (slice_to MAX r))
              :: sendChunks f false (slice_from MAX r)
          else []).
  rewrite H; reflexivity.
Qed.

Lemma ceil_div_one (n : nat) : 0 < n <= MAX -> (n + (MAX - 1)) / MAX = 1.
Proof.
  intros H. symmetry. apply (Nat.div_unique _ _ _ (n - 1)); unfold MAX in *; lia.
Qed.

Lemma sendChunks_spec (f : nat) (first : bool) (rest : jstring) :
  length rest <= f -> 0 < length rest ->
  exists c cs,
    sendChunks f first rest
      = (if first then BotReply c else BotSend c) :: map BotSend cs /\
    concat (c :: cs) = rest /\
    Forall (fun x => 0 < length x <= MAX) (c :: cs) /\
    length (c :: cs) = (length rest + (MAX - 1)) / MAX.
Proof.
  revert first rest; induction f as [|f IH]; intros first rest Hf Hp; [lia|].
  change (sendChunks (S f) first rest)
    with (if 0 <? length rest then
            (if first then BotReply (slice_to MAX rest)
             else BotSend (slice_to MAX rest))
              :: sendChunks f false (slice_from MAX rest)
          else []).
  replace (0 <? length rest) with true
    by (symmetry; apply Nat.ltb_lt; exact Hp).
  pose proof (firstn_skipn MAX rest) as Hsplit.
  pose proof (length_skipn MAX rest) as Hr.
  pose proof (length_firstn MAX rest) as Hc.
  change (firstn MAX rest) with (slice_to MAX rest) in Hsplit, Hc.
  change (skipn MAX rest) with (slice_from MAX rest) in Hsplit, Hr.
  set (c := slice_to MAX rest) in *.
  set (r := slice_from MAX rest) in *.
  destruct (Nat.eq_dec (length r) 0) as [H0|H0].
  - exists c, []. rewrite sendChunks_empty by exact H0.
    rewrite (length_zero r H0), app_nil_r in Hsplit.
    split; [reflexivity|]. split; [simpl; rewrite app_nil_r; exact Hsplit|].
    split.
    + constructor; [|constructor]. unfold MAX in *; lia.
    + simpl length. rewrite ceil_div_one; [reflexivity|]. unfold MAX in *; lia.
  - destruct (IH false r) as (c' & cs' & Hs & Hcat & Hall & Hlen);
      [unfold MAX in *; lia | lia |].
    exists c, (c' :: cs').
    split; [rewrite Hs; reflexivity|].
    split.
    + change (concat (c :: c' :: cs')) with (c ++ concat (c' :: cs')).
      rewrite Hcat. exact Hsplit.
    + split.
      * constructor; [unfold MAX in *; lia | exact Hall].
      * change (length (c :: c' :: cs')) with (S (length (c' :: cs'))).
        rewrite Hlen.
        replace (length rest + (MAX - 1))
          with (length r + (MAX - 1) + 1 * MAX)
          by (unfold MAX in *; lia).
        rewrite Nat.div_add by (unfold MAX; lia). lia.
Qed.

(** The bot's reply to a response text: the first message is a reply and
    every further one is a plain channel message. Concatenated, they give
    back the response text exactly, and none is longer than 1900 code
    units. A text of at most 1900 units is sent as one reply. A longer text
    is cut into non-empty pieces, ceil(length / 1900) of them. *)
Theorem replyWithResponse_split (responseText : jstring) :
  exists c cs,
    replyWithResponse responseText = BotReply c :: map BotSend cs /\
    concat (c :: cs) = responseText /\
    Forall (fun x => length x <= MAX) (c :: cs) /\
    (length responseText <= MAX -> cs = []) /\
    (MAX < length responseText ->
       Forall (fun x => 0 < length x) (c :: cs) /\
       length (c :: cs) = (length responseText + (MAX - 1)) / MAX).
Proof.
  unfold replyWithResponse.
  destruct (length responseText <=? MAX) eqn:Hle.
  - apply Nat.leb_le in Hle. exists responseText, [].
    split; [reflexivity|]. split; [apply app_nil_r|].
    split; [constructor; [exact Hle | constructor]|].
    split; [reflexivity|]. intros Hgt; lia.
  - apply Nat.leb_gt in Hle.
    destruct (sendChunks_spec (length responseText) true responseText)
      as (c & cs & Hs & Hcat & Hall & Hlen); [lia | unfold MAX in *; lia |].
    exists c, cs. split; [exact Hs|]. split; [exact Hcat|].
    split; [|split].
    + eapply Forall_impl; [|exact Hall]. intros x [_ Hx]; exact Hx.
    + intros Hle'; exfalso; lia.
    + intros _. split; [|exact Hlen].
      eapply Forall_impl; [|exact Hall]. intros x [Hx _]; exact Hx.
Qed.

(** *** Cooldowns *)

Lemma obj_get_set_same {V} (k : jstring) (v : V) (o : list (jstring * V)) :
  obj_get k (obj_set k v o) = Some v.
Proof.
  induction o as [|[k' v'] o IH]; simpl; [rewrite jeqb_refl; reflexivity|].
  destruct (jeqb k k') eqn:Hk; simpl.
  - rewrite jeqb_refl; reflexivity.
  - rewrite Hk; exact IH.
Qed.

Lemma obj_get_set_other {V} (k k' : jstring) (v : V) (o : list (jstring * V)) :
  k <> k' -> obj_get k (obj_set k' v o) = obj_get k o.
Proof.
  intros Hne.
  assert (Hf : jeqb k k' = false).
  { destruct (jeqb k k') eqn:E; [exfalso; apply Hne, jeqb_eq, E | reflexivity]. }
  induction o as [|[k'' v''] o IH]; simpl.
  - rewrite Hf; reflexivity.
  - destruct (jeqb k' k'') eqn:E; simpl.
    + apply jeqb_eq in E; subst k''. rewrite Hf; reflexivity.
    + destruct (jeqb k k''); [reflexivity | exact IH].
Qed.

Lemma Qltb_true (a b : Q) : (a < b)%Q -> Qltb a b = true.
Proof.
  intros H; unfold Qltb. destruct (Qle_bool b a) eqn:E; [|reflexivity].
  apply Qle_bool_iff in E. exfalso; apply (Qlt_not_le _ _ H E).
Qed.

Section HandlerProps.

Variable RATE_LIMIT_ENABLED : bool.
Variable COOLDOWN_SECONDS : Q.
Variable cooldownEndAt : Q -> Q.
Variable Byte : Type.
Variable toBase64 : list Byte -> jstring.
Variable fetch : jstring -> HttpOutcome Byte.
Variable agentRun : jstring -> option (jstring * jstring)
                    -> list (jstring * jstring) * Service.Result jstring.
Variable api : list BotAction -> BotAction -> option jstring.

Local Abbreviation handler :=
  (onMessageCreate RATE_LIMIT_ENABLED COOLDOWN_SECONDS cooldownEndAt Byte
     toBase64 fetch agentRun api).

Local Abbreviation active := (rateLimitActive RATE_LIMIT_ENABLED COOLDOWN_SECONDS).

Lemma tryBlock_typing (u : jstring) (img : option (jstring * jstring)) :
  exists rest, fst (tryBlock agentRun api u img) = BotTyping :: rest.
Proof.
  unfold tryBlock. destruct (api [] BotTyping); [eexists; reflexivity|].
  destruct (agentRun u img) as [calls [r|e]]; [|eexists; reflexivity].
  destruct (awaitCalls api _ _); eexists; reflexivity.
Qed.

Lemma handler_state (m : DiscordMessage) (now fin : Q)
    (cds : list (jstring * Q)) :
  snd (handler m now fin cds) =
    if enteredTry (fst (handler m now fin cds)) && active
    then obj_set (authorId m) (cooldownEndAt fin) cds
    else cds.
Proof.
  unfold onMessageCreate.
  destruct (extractUserText (negb (inGuild m)) (msgContent m)) as [u|];
    [|reflexivity].
  destruct (active && Qltb now _); [reflexivity|].
  destruct (attachmentUrl m) as [url|]; [destruct (truthy url)|];
    [destruct (downloadFileAsBase64 Byte toBase64 (fetch url)) as [b mt|e|]| |];
    cbn; try reflexivity;
    match goal with
    | |- context [tryBlock agentRun api u ?img] =>
        destruct (tryBlock_typing u img) as [rest Hrest];
        destruct (tryBlock agentRun api u img) as [acts err];
        simpl in Hrest; subst acts; cbn;
        destruct active; reflexivity
    end.
Qed.


(** With rate limiting active, once the handler has entered its [try]
    block for a message, a later prompt by the same author arriving before
    the cooldown end stored in the [finally] block only gets the "Please
    wait" reply, computed from that end and the current time; the agent is
    not run and the cooldown map is unchanged. *)
Theorem cooldown_enforced (m1 m2 : DiscordMessage) (now1 fin1 now2 fin2 : Q)
    (cds : list (jstring * Q)) (userText2 : jstring) :
  active = true ->
  enteredTry (fst (handler m1 now1 fin1 cds)) = true ->
  authorId m2 = authorId m1 ->
  extractUserText (negb (inGuild m2)) (msgContent m2) = Some userText2 ->
  (now2 < cooldownEndAt fin1)%Q ->
  handler m2 now2 fin2 (snd (handler m1 now1 fin1 cds)) =
    ([BotCooldownNotice (cooldownEndAt fin1) now2],
     snd (handler m1 now1 fin1 cds)).
Proof.
  intros Hact Hran Hauth Hext Hlt.
  rewrite (handler_state m1 now1 fin1 cds), Hran, Hact. cbn [andb].
  unfold onMessageCreate at 1. rewrite Hext, Hauth.
  rewrite obj_get_set_same, Hact, (Qltb_true _ _ Hlt).
  reflexivity.
Qed.

End HandlerProps.

Lemma cooldown_enforced_witness :
  let h := onMessageCreate true 5 (fun t => t + 5 * 1000)%Q unit
             (fun _ => []) (fun _ => NoResponse unit [])
             (fun _ _ => ([], Service.Ok (js "Hello!")))
             (fun _ _ => None) in
  h (mkDiscordMessage (js "42") true (js "<@1> !ask what time is it") None)
    2000%Q 3000%Q
    (snd (h (mkDiscordMessage (js "42") true (js "<@1> !ask hi") None)
            0%Q 1000%Q []))
  = ([BotCooldownNotice (1000 + 5 * 1000)%Q 2000%Q],
     snd (h (mkDiscordMessage (js "42") true (js "<@1> !ask hi") None)
            0%Q 1000%Q [])).
Proof.
  apply (cooldown_enforced true 5 (fun t => t + 5 * 1000)%Q unit
           (fun _ => []) (fun _ => NoResponse unit [])
           (fun _ _ => ([], Service.Ok (js "Hello!"))) (fun _ _ => None)
           (mkDiscordMessage (js "42") true (js "<@1> !ask hi") None)
           (mkDiscordMessage (js "42") true (js "<@1> !ask what time is it") None)
           0 1000 2000 3000 [] (js "what time is it"));
    vm_compute; reflexivity.
Defined.

End DiscordProps.

(** ** Properties of the CLI subscriber *)

Module CliProps.

Import Cli.

Lemma endsWith_app (a b : jstring) : endsWith (a ++ b) b = true.
Proof.
  unfold endsWith. rewrite length_app.
  replace (length a + length b - length b) with (length a) by lia.
  rewrite DiscordProps.skipn_length_app, jeqb_refl, andb_true_r.
  apply Nat.leb_le; lia.
Qed.

Lemma endsWith_empty (a : jstring) : endsWith a [] = true.
Proof.
  unfold endsWith; simpl. rewrite Nat.sub_0_r, skipn_all. reflexivity.
Qed.

(** The CLI drops a repeated delta that the reconciler keeps: for two equal
    text deltas in a row, the reconciler appends both to its buffer and
    emits both as chunk events (none for an empty delta), while the CLI's
    [accumulatedResponse], fed with those events, grows as for one chunk
    only. *)
Theorem cli_drops_repeated_delta (st : StreamState) (acc d : jstring) :
  currentSegmentText (run_signals (deltas [d; d]) st)
    = currentSegmentText st ++ d ++ d /\
  emitted (run_signals (deltas [d; d]) st)
    = emitted st ++ (if truthy d then [EvChunk d; EvChunk d] else []) /\
  fold_left accumulate
    (skipn (length (emitted st)) (emitted (run_signals (deltas [d; d]) st))) acc
    = accumulate acc (EvChunk d).
Proof.
  rewrite run_deltas; simpl emitted; simpl currentSegmentText.
  rewrite skipn_app, skipn_all, Nat.sub_diag; simpl skipn.
  split; [rewrite app_nil_r; reflexivity|].
  simpl nonempty_deltas. destruct (truthy d) eqn:Hd; simpl.
  - split; [reflexivity|].
    destruct (endsWith acc d) eqn:He; [rewrite He; reflexivity|].
    rewrite endsWith_app; reflexivity.
  - split; [reflexivity|].
    rewrite (truthy_false d Hd), endsWith_empty; reflexivity.
Qed.

Lemma in_firstn_in (c : N) (n : nat) (l : jstring) :
  In c (firstn n l) -> In c l.
Proof.
  intros H. rewrite <- (firstn_skipn n l). apply in_or_app; left; exact H.
Qed.

Lemma split_no_backslash (prev : option N) (l cur : jstring) :
  ~ In backslash l ->
  split_sentences prev false l cur = [rev cur ++ l].
Proof.
  revert prev cur; induction l as [|c l IH]; intros prev cur Hn.
  - simpl; rewrite app_nil_r; reflexivity.
  - simpl split_sentences.
    replace (N.eqb c backslash) with false.
    + rewrite andb_false_r; simpl andb; cbv iota.
      rewrite IH by (intros H; apply Hn; right; exact H).
      simpl; rewrite <- app_assoc; reflexivity.
    + symmetry; apply N.eqb_neq. intros ->; apply Hn; left; reflexivity.
Qed.

Lemma step2_noop (toLowerCase : jstring -> jstring) (text : jstring) :
  ~ In backslash text ->
  (if (length (fragmentsOf text) <=? 1)
      && negb (match DiscordBot.indexOf text backslash_n with
               | Some _ => true
               | None => false
               end)
   then text
   else trim (join (js " ") (dedup_loop toLowerCase (fragmentsOf text) [] [])))
  = text.
Proof.
  intros Hn.
  assert (Hf : fragmentsOf text = [text]).
  { unfold fragmentsOf; rewrite split_no_backslash by exact Hn.
    reflexivity. }
  destruct (DiscordBot.indexOf text backslash_n) eqn:Hi.
  - exfalso. unfold DiscordBot.indexOf in Hi.
    destruct (DiscordProps.indexOf_from_found _ _ _ _ Hi) as (pre & post & Ht).
    apply Hn. rewrite Ht.
    apply in_or_app; right; left; reflexivity.
  - rewrite Hf; reflexivity.
Qed.

(** [cleanDuplicateText] never reaches its sentence-level deduplication on
    a text without a backslash: the split pattern, written [\\s+] inside a
    regular expression literal, needs a backslash, and so does the
    [includes('\\n')] test. On such a text the function only halves an
    exact doubling ("Okay.Okay." becomes "Okay.") and returns '' for '',
    whatever the case mapping of [toLowerCase]. *)
Theorem cleanDuplicateText_no_backslash (toLowerCase : jstring -> jstring)
    (text : jstring) :
  ~ In backslash text ->
  cleanDuplicateText toLowerCase text =
    if negb (truthy text) then []
    else
      let n := length text in
      let halfLength := n / 2 in
      if (1 <? n) && (n mod 2 =? 0)
         && jeqb (firstn halfLength text) (skipn halfLength text)
      then firstn halfLength text
      else text.
Proof.
  intros Hn. unfold cleanDuplicateText.
  destruct (negb (truthy text)); [reflexivity|].
  cbv zeta. apply step2_noop.
  destruct (_ && _ && _); [|exact Hn].
  intros H; apply Hn; exact (in_firstn_in _ _ _ H).
Qed.

Lemma cleanDuplicateText_no_backslash_witness :
  cleanDuplicateText (fun s => s) (js "Okay.Okay.") = js "Okay.".
Proof.
  rewrite (cleanDuplicateText_no_backslash (fun s => s) (js "Okay.Okay.")).
  - vm_compute; reflexivity.
  - vm_compute. intros H. repeat (destruct H as [H|H]; [discriminate H|]).
    exact H.
Defined.

End CliProps.
